(** * The Metropolis-Hastings step methods of [pymc/step_methods/metropolis.py]

    A shallow embedding of [tune], [Metropolis] and [BinaryMetropolis].

    Python floats and the elements of numpy [float64] arrays are IEEE 754
    binary64 numbers: they are Rocq's primitive floats, with the same
    operations, comparisons, infinities and NaN.  Python integers are
    unbounded: they are [Z].  A step object is a record of its fields and a
    method takes the record and returns the updated record next to its
    outcome; an outcome is a value or the exception the call raised.  The
    random draws a call makes are arguments of the method. *)

From Stdlib Require Import ZArith List Bool String Lia.
From Stdlib Require Import Floats Reals Lra.
From Stdlib Require Uint63.
Import ListNotations.

Set Warnings "-inexact-float".

Local Open Scope Z_scope.

(** ** Exceptions and outcomes *)

Inductive exn : Type :=
| ValueError (msg : string)
| IndexError
| TypeError
| ZeroDivisionError
| OverflowError
| CollaboratorError (tag : Z).

Inductive result (A : Type) : Type :=
| Ok (a : A)
| Raise (e : exn).

Arguments Ok {A} a.
Arguments Raise {A} e.

Definition bind {A B : Type} (r : result A) (k : A -> result B) : result B :=
  match r with
  | Ok a => k a
  | Raise e => Raise e
  end.

Notation "'let*' x ':=' r 'in' k" := (bind r (fun x => k))
  (at level 10, x name, r at level 100, k at level 200).

(** ** Python numbers *)

(** [float(n)] for a Python integer [n]: the nearest binary64 number, ties to
    even; an integer too large for a finite float raises [OverflowError]. *)
Definition Z2float (n : Z) : float :=
  SF2Prim (binary_normalize prec emax n 0 false).

Definition py_float (n : Z) : result float :=
  let f := Z2float n in
  if is_infinity f then Raise OverflowError else Ok f.

(** [n / d] for a Python integer [n] and a float [d]: [n] is converted first,
    and a zero divisor raises [ZeroDivisionError]. *)
Definition py_int_truediv (n : Z) (d : float) : result float :=
  let* x := py_float n in
  if (d =? 0)%float then Raise ZeroDivisionError else Ok (x / d)%float.

(** [m1 * 2^e1 <= m2 * 2^e2] for two positive floats in canonical form. *)
Definition sf_pos_le (m1 : positive) (e1 : Z) (m2 : positive) (e2 : Z) : Prop :=
  e1 < e2 \/ (e1 = e2 /\ (m1 <= m2)%positive).

(** ** [tune] (lines 104-140) *)

Definition tune (scale acc_rate : float) : float :=
  if (acc_rate <? 0.001)%float then (scale * 0.1)%float
  else if (acc_rate <? 0.05)%float then (scale * 0.5)%float
  else if (acc_rate <? 0.2)%float then (scale * 0.9)%float
  else if (0.95 <? acc_rate)%float then (scale * 10.0)%float
  else if (0.75 <? acc_rate)%float then (scale * 2.0)%float
  else if (0.5 <? acc_rate)%float then (scale * 1.1)%float
  else scale.

(** The table of section 4.2 as the specification words it: an ordered list
    of conditions on the rate, each with its multiplier, read top to bottom
    until a condition holds. *)
Inductive rate_condition : Type :=
| Below (bound : float)
| Above (bound : float).

Definition holds (c : rate_condition) (r : float) : bool :=
  match c with
  | Below b => (r <? b)%float
  | Above b => (b <? r)%float
  end.

Definition tune_table : list (rate_condition * float) :=
  [ (Below 0.001, 0.1); (Below 0.05, 0.5); (Below 0.2, 0.9);
    (Above 0.95, 10.0); (Above 0.75, 2.0); (Above 0.5, 1.1) ]%float.

Fixpoint first_match (table : list (rate_condition * float)) (r : float)
  : option float :=
  match table with
  | [] => None
  | (c, m) :: rest => if holds c r then Some m else first_match rest r
  end.

Definition tune_by_table (scale acc_rate : float) : float :=
  match first_match tune_table acc_rate with
  | Some m => (scale * m)%float
  | None => scale
  end.

(** ** Methods: a state and an outcome

    A method body runs on the object's record.  An exception ends the body
    and keeps the assignments made before it. *)

Definition M (St A : Type) : Type := St -> result A * St.

Definition ret {St A : Type} (a : A) : M St A := fun s => (Ok a, s).

Definition mbind {St A B : Type} (m : M St A) (k : A -> M St B) : M St B :=
  fun s =>
    match m s with
    | (Ok a, s') => k a s'
    | (Raise e, s') => (Raise e, s')
    end.

Definition get {St : Type} : M St St := fun s => (Ok s, s).

Definition modify {St : Type} (f : St -> St) : M St unit :=
  fun s => (Ok tt, f s).

Definition lift {St A : Type} (r : result A) : M St A := fun s => (r, s).

Notation "x <- m ;; k" := (mbind m (fun x => k))
  (at level 61, m at next level, right associativity).
Notation "m ;;; k" := (mbind m (fun _ => k))
  (at level 61, right associativity).

(** ** numpy arrays

    A one-dimensional [float64] array is a list of floats.  A deviate that
    numpy returns as a scalar is the list of length one, which broadcasts
    the same way. *)

Definition vec : Type := list float.

Fixpoint zip_with {A B C : Type} (f : A -> B -> C) (a : list A) (b : list B)
  : list C :=
  match a, b with
  | x :: a', y :: b' => f x y :: zip_with f a' b'
  | _, _ => []
  end.

(** An elementwise operation on two arrays: equal shapes pair up, an array
    of one element is stretched over the other, anything else raises. *)
Definition broadcast2 {C : Type} (f : float -> float -> C) (a b : vec)
  : result (list C) :=
  if (List.length a =? List.length b)%nat then Ok (zip_with f a b)
  else
    match a, b with
    | [x], _ => Ok (map (f x) b)
    | _, [y] => Ok (map (fun x => f x y) a)
    | _, _ => Raise (ValueError "operands could not be broadcast together")
    end.

Definition np_add (a b : vec) : result vec := broadcast2 PrimFloat.add a b.

(** [a != b] and [a == b], elementwise, with IEEE equality. *)
Definition np_ne (a b : vec) : result (list bool) :=
  broadcast2 (fun x y => negb (x =? y)%float) a b.

Definition np_eq (a b : vec) : result (list bool) :=
  broadcast2 (fun x y => (x =? y)%float) a b.

Definition any (l : list bool) : bool := existsb (fun b => b) l.
Definition all (l : list bool) : bool := forallb (fun b => b) l.

(** Two arrays differ in some coordinate; two arrays agree in every
    coordinate (IEEE comparison, as [!=] and [==] make it). *)
Definition differs (a b : vec) : Prop :=
  exists i x y, nth_error a i = Some x /\ nth_error b i = Some y /\
                (x =? y)%float = false.

Definition coincide (a b : vec) : Prop :=
  forall i x y, nth_error a i = Some x -> nth_error b i = Some y ->
                (x =? y)%float = true.

(** The element an array supplies at position [i] when an elementwise
    operation pairs it with another array: an array of one element supplies
    that element at every position. *)
Definition supplied (a : vec) (i : nat) : option float :=
  match a with
  | [x] => Some x
  | _ => nth_error a i
  end.

(** [differs] and [coincide] over the pairs an elementwise comparison
    makes. *)
Definition differs_paired (a b : vec) : Prop :=
  exists i x y, supplied a i = Some x /\ supplied b i = Some y /\
                (x =? y)%float = false.

Definition coincide_paired (a b : vec) : Prop :=
  forall i x y, supplied a i = Some x -> supplied b i = Some y ->
                (x =? y)%float = true.

(** *** [round(x, 0).astype(int)] stored back into a [float64] array *)

(** The integer nearest to [n / d] for [d > 0], ties to the even one. *)
Definition round_half_even (n d : Z) : Z :=
  let q := n / d in
  match 2 * (n mod d) ?= d with
  | Lt => q
  | Gt => q + 1
  | Eq => if Z.even q then q else q + 1
  end.

(** The integer nearest to [m * 2^e]. *)
Definition rint_mag (m : positive) (e : Z) : Z :=
  if 0 <=? e then Zpos m * 2 ^ e
  else round_half_even (Zpos m) (2 ^ (- e)).

(** [round(x, 0)] of a finite [x], as an integer; none for infinities and
    NaN. *)
Definition rint (x : float) : option Z :=
  match Prim2SF x with
  | S754_zero _ => Some 0
  | S754_finite s m e => Some (cond_Zopp s (rint_mag m e))
  | _ => None
  end.

Definition int64_min : Z := - 2 ^ 63.
Definition int64_max : Z := 2 ^ 63 - 1.

(** [.astype(int)] to the platform's 64-bit integer: NaN, the infinities and
    values out of range convert to the most negative integer, as on x86-64. *)
Definition astype_int (r : option Z) : Z :=
  match r with
  | Some z => if (int64_min <=? z) && (z <=? int64_max) then z else int64_min
  | None => int64_min
  end.

(** A 64-bit integer stored into a [float64] slot. *)
Definition int64_to_float (z : Z) : float :=
  if z <? 0 then
    if z =? int64_min then (-9223372036854775808)%float
    else (- of_uint63 (Uint63.of_Z (- z)))%float
  else of_uint63 (Uint63.of_Z z).

Definition round_to_int (x : float) : float :=
  int64_to_float (astype_int (rint x)).

(** A float that holds a 64-bit integer. *)
Definition int64_valued (x : float) : Prop :=
  exists z, int64_min <= z <= int64_max /\ x = int64_to_float z.

(** [q[mask] = round(q[mask], 0).astype(int)]: a boolean index must have the
    shape of the array. *)
Definition round_masked (mask : list bool) (q : vec) : result vec :=
  if (List.length mask =? List.length q)%nat
  then Ok (zip_with (fun (d : bool) x => if d then round_to_int x else x)
                    mask q)
  else Raise IndexError.

(** The exact value of a finite float, as a real number. *)
Definition F2R (x : float) : R :=
  match Prim2SF x with
  | S754_finite s m e => (IZR (cond_Zopp s (Zpos m)) * powerRZ 2 e)%R
  | _ => 0%R
  end.

(** ** [metrop_select] *)

(** Modelled from the spec: [metrop_select] lives in module [arraystep], which
    is not among the sources.  Section 4.5: accept unconditionally if the
    difference is at least zero; otherwise draw one uniform value [u] and
    accept iff [u < exp(difference)]; return the candidate on accept and the
    current state on reject.  Section 7: exp of minus infinity is 0.  The
    exponential is the real one; a NaN difference compares false. *)
Definition exp_of (mr : float) : option R :=
  match Prim2SF mr with
  | S754_nan => None
  | S754_infinity false => None
  | S754_infinity true => Some 0%R
  | _ => Some (exp (F2R mr))
  end.

Definition below_exp (u mr : float) : bool :=
  match exp_of mr with
  | Some t => if Rlt_dec (F2R u) t then true else false
  | None => false
  end.

Definition metrop_select (u mr : float) (q q0 : vec) : vec :=
  if (0 <=? mr)%float then q
  else if below_exp u mr then q
  else q0.

(** [logp(q) - logp(q0)]: the candidate is evaluated first, and an error of
    the callable propagates. *)
Definition log_ratio (logp : vec -> result float) (q q0 : vec) : result float :=
  let* lq := logp q in
  let* lq0 := logp q0 in
  Ok (lq - lq0)%float.

(** ** Variables and the model context *)

(** A variable: the name of its distribution and its [dtype] tag.  This
    module reads the [dtype] only. *)
Record var : Type := { distribution : string; dtype : string }.

(** [v.dtype in discrete_types].  The set [discrete_types] comes from the
    package's core module, which is not among the sources: it is a parameter
    of the constructors. *)
Definition is_discrete (discrete_types : list string) (v : var) : bool :=
  existsb (String.eqb (dtype v)) discrete_types.

(** Modelled from the spec: [modelcontext] belongs to the package's core
    module.  The class docstring: the model is optional and defaults to the
    one taken from the context; without either there is no model to return. *)
Definition modelcontext {Model : Type} (context model : option Model)
  : result Model :=
  match model, context with
  | Some m, _ => Ok m
  | None, Some m => Ok m
  | None, None => Raise TypeError
  end.

(** A keyword argument left out takes its default. *)
Definition default {A : Type} (d : A) (arg : option A) : A :=
  match arg with
  | Some a => a
  | None => d
  end.

(** ** Proposal distributions (lines 16-36)

    Each constructor closes over its scale [s] and returns a generator; the
    closure is the constructor's name with the captured scale.
    [quad_potential] is the name the module imports next to them. *)
Inductive proposal_family : Type :=
| normal_proposal
| cauchy_proposal
| laplace_proposal
| poisson_proposal
| quad_potential.

Record proposal : Type := { family : proposal_family; scale_S : vec }.

(** ** [Metropolis] (lines 38-101) *)

Module Metropolis.

Local Abbreviation tune_scale := tune (only parsing).

Record t : Type := {
  proposal_dist : proposal;
  scaling : float;
  tune : bool;
  tune_interval : Z;
  steps_until_tune : Z;
  accepted : Z;
  discrete : list bool
}.

Definition set_scaling (x : float) (self : t) : t :=
  {| proposal_dist := proposal_dist self; scaling := x; tune := tune self;
     tune_interval := tune_interval self;
     steps_until_tune := steps_until_tune self; accepted := accepted self;
     discrete := discrete self |}.

Definition set_steps_until_tune (n : Z) (self : t) : t :=
  {| proposal_dist := proposal_dist self; scaling := scaling self;
     tune := tune self; tune_interval := tune_interval self;
     steps_until_tune := n; accepted := accepted self;
     discrete := discrete self |}.

Definition set_accepted (n : Z) (self : t) : t :=
  {| proposal_dist := proposal_dist self; scaling := scaling self;
     tune := tune self; tune_interval := tune_interval self;
     steps_until_tune := steps_until_tune self; accepted := n;
     discrete := discrete self |}.

(** [__init__] (lines 59-76).  The call of the base class constructor, which
    keeps the variables and the model's log-probability, adds nothing to the
    fields below. *)
Definition init {Model : Type} (discrete_types : list string)
    (context : option Model) (vars : list var) (S_arg : option vec)
    (proposal_dist_arg : option proposal_family) (scaling_arg : option float)
    (tune_arg : option bool) (tune_interval_arg : option Z)
    (model : option Model) : result t :=
  let* _ := modelcontext context model in
  let S_given := match S_arg with
                 | None => repeat 1%float (List.length vars)
                 | Some s => s
                 end in
  Ok {| proposal_dist :=
          {| family := default normal_proposal proposal_dist_arg;
             scale_S := S_given |};
        scaling := default 1%float scaling_arg;
        tune := default true tune_arg;
        tune_interval := default 100 tune_interval_arg;
        steps_until_tune := default 100 tune_interval_arg;
        accepted := 0;
        discrete := map (is_discrete discrete_types) vars |}.

(** Line 83: [self.accepted / float(self.tune_interval)]. *)
Definition acceptance_rate (self : t) : result float :=
  let* d := py_float (tune_interval self) in
  py_int_truediv (accepted self) d.

(** Line 80: [self.tune and not self.steps_until_tune]. *)
Definition due (self : t) : bool :=
  tune self && (steps_until_tune self =? 0).

(** Lines 80-86: the tuning event. *)
Definition tuning : M t unit :=
  self <- get ;;
  if due self then
    rate <- lift (acceptance_rate self) ;;
    modify (set_scaling (tune_scale (scaling self) rate)) ;;;
    modify (set_steps_until_tune (tune_interval self)) ;;;
    modify (set_accepted 0)
  else ret tt.

(** Lines 88-92: the candidate. *)
Definition candidate (self : t) (q0 dev : vec) : result vec :=
  let delta := map (fun d => (d * scaling self)%float) dev in
  let* q := np_add q0 delta in
  if any (discrete self) then round_masked (discrete self) q else Ok q.

(** Line 96: [any(q_new != q0) or all(q0 == q)]. *)
Definition counts_as_accepted (q_new q0 q : vec) : result bool :=
  let* moved := np_ne q_new q0 in
  if any moved then Ok true
  else let* same := np_eq q0 q in Ok (all same).

Definition astep (q0 : vec) (logp : vec -> result float) (dev : vec)
    (u : float) : M t vec :=
  tuning ;;;
  self <- get ;;
  q <- lift (candidate self q0 dev) ;;
  mr <- lift (log_ratio logp q q0) ;;
  let q_new := metrop_select u mr q q0 in
  hit <- lift (counts_as_accepted q_new q0 q) ;;
  (if hit : bool
   then modify (fun self => set_accepted (accepted self + 1) self)
   else ret tt) ;;;
  modify (fun self => set_steps_until_tune (steps_until_tune self - 1) self) ;;;
  ret q_new.

(** One call of [astep]: the current state, the log-probability callable,
    and what the random number generator returns during the call (the
    deviate [self.proposal_dist()] and the accept/reject draw). *)
Record call : Type := {
  q0_of : vec;
  logp_of : vec -> result float;
  dev_of : vec;
  u_of : float
}.

Definition step (self : t) (c : call) : result vec * t :=
  astep (q0_of c) (logp_of c) (dev_of c) (u_of c) self.

(** The object after a sequence of calls, whatever their outcomes. *)
Definition run (self : t) (calls : list call) : t :=
  fold_left (fun s c => snd (step s c)) calls self.

(** The object after a tuning event that computed the rate [rate]. *)
Definition retuned (self : t) (rate : float) : t :=
  set_accepted 0
    (set_steps_until_tune (tune_interval self)
       (set_scaling (tune_scale (scaling self) rate) self)).

(** The object after lines 96-99, for the outcome [hit] of the test of
    line 96. *)
Definition counted (hit : bool) (self : t) : t :=
  set_steps_until_tune (steps_until_tune self - 1)
    (if hit then set_accepted (accepted self + 1) self else self).

(** The counter and the countdown share the tune interval between them. *)
Definition counters_ok (s : t) : Prop :=
  0 <= steps_until_tune s /\ 0 <= accepted s /\
  accepted s + steps_until_tune s <= tune_interval s.

End Metropolis.

(** ** [BinaryMetropolis] (lines 143-173) *)

(** An element that is 0 or 1. *)
Definition is_bit (x : float) : bool := (x =? 0)%float || (x =? 1)%float.

Module BinaryMetropolis.

Record t : Type := {
  scaling : float;
  tune : bool;
  tune_interval : Z;
  steps_until_tune : Z;
  accepted : Z
}.

(** [__init__] (lines 145-158): the fields are assigned before the check,
    and a failed check raises instead of returning the object.  The record
    holds the fields this class assigns; what the base class constructor
    called on line 158, defined outside this file, keeps of the variables
    and the model is not part of it. *)
Definition init {Model : Type} (discrete_types : list string)
    (context : option Model) (vars : list var) (scaling_arg : option float)
    (tune_arg : option bool) (tune_interval_arg : option Z)
    (model : option Model) : result t :=
  let* _ := modelcontext context model in
  let self := {| scaling := default 1%float scaling_arg;
                 tune := default true tune_arg;
                 tune_interval := default 100 tune_interval_arg;
                 steps_until_tune := default 100 tune_interval_arg;
                 accepted := 0 |} in
  if negb (forallb (is_discrete discrete_types) vars)
  then Raise (ValueError "All variables must be Bernoulli for BinaryMetropolis")
  else Ok self.

(** Lines 165-169: flip the positions whose draw is below [p_jump]. *)
Definition candidate (p_jump : float) (rand_array q0 : vec) : vec :=
  zip_with (fun r x => if (r <? p_jump)%float then (1 - x)%float else x)
           rand_array q0.

(** Lines 163-169 for [half_pow = .5 ** scaling]: the uniform array is the
    first [len(q0)] draws of the stream [rand]. *)
Definition proposed (half_pow : float) (rand : nat -> float) (q0 : vec)
  : vec :=
  candidate (1 - half_pow)%float (map rand (seq 0 (List.length q0))) q0.

(** [astep] (lines 160-173).  Python computes [.5 ** scaling] with the C
    library's [pow] and raises on overflow: [py_pow] is that operation.
    [random(q0.shape)] has the shape of [q0]: of the stream [rand] it is the
    first [len(q0)] draws. *)
Definition astep (py_pow : float -> float -> result float) (q0 : vec)
    (logp : vec -> result float) (rand : nat -> float) (u : float) : M t vec :=
  self <- get ;;
  half_pow <- lift (py_pow 0.5%float (scaling self)) ;;
  let q := proposed half_pow rand q0 in
  mr <- lift (log_ratio logp q q0) ;;
  let q_new := metrop_select u mr q q0 in
  ret q_new.

End BinaryMetropolis.

(** ** Sample objects and calls

    Objects built by the constructors and calls made on them, to run the
    definitions on. *)

Definition float_var : var :=
  {| distribution := "Normal"; dtype := "float64" |}.
Definition int_var : var :=
  {| distribution := "Poisson"; dtype := "int64" |}.
Definition bernoulli_var : var :=
  {| distribution := "Bernoulli"; dtype := "int64" |}.

(** A log-probability that is the same everywhere. *)
Definition flat_logp : vec -> result float := fun _ => Ok 0%float.

(** A call whose deviate is zero: the candidate is the current state. *)
Definition still_call : Metropolis.call :=
  {| Metropolis.q0_of := [0%float]; Metropolis.logp_of := flat_logp;
     Metropolis.dev_of := [0%float]; Metropolis.u_of := 0.5%float |}.

(** [Metropolis([x])] with every default, for a continuous [x]. *)
Definition default_step : Metropolis.t :=
  {| Metropolis.proposal_dist :=
       {| family := normal_proposal; scale_S := [1%float] |};
     Metropolis.scaling := 1%float; Metropolis.tune := true;
     Metropolis.tune_interval := 100; Metropolis.steps_until_tune := 100;
     Metropolis.accepted := 0; Metropolis.discrete := [false] |}.

(** [Metropolis([x], tune=False, tune_interval=1)]. *)
Definition untuned_step : Metropolis.t :=
  {| Metropolis.proposal_dist :=
       {| family := normal_proposal; scale_S := [1%float] |};
     Metropolis.scaling := 1%float; Metropolis.tune := false;
     Metropolis.tune_interval := 1; Metropolis.steps_until_tune := 1;
     Metropolis.accepted := 0; Metropolis.discrete := [false] |}.

(** [Metropolis([x], tune_interval=1)]. *)
Definition eager_step : Metropolis.t :=
  {| Metropolis.proposal_dist :=
       {| family := normal_proposal; scale_S := [1%float] |};
     Metropolis.scaling := 1%float; Metropolis.tune := true;
     Metropolis.tune_interval := 1; Metropolis.steps_until_tune := 1;
     Metropolis.accepted := 0; Metropolis.discrete := [false] |}.

(** [Metropolis([n])] with every default, for an integer-valued [n]. *)
Definition discrete_step : Metropolis.t :=
  {| Metropolis.proposal_dist :=
       {| family := normal_proposal; scale_S := [1%float] |};
     Metropolis.scaling := 1%float; Metropolis.tune := true;
     Metropolis.tune_interval := 100; Metropolis.steps_until_tune := 100;
     Metropolis.accepted := 0; Metropolis.discrete := [true] |}.



(** [BinaryMetropolis([b])] with every default. *)
Definition binary_step : BinaryMetropolis.t :=
  {| BinaryMetropolis.scaling := 1%float; BinaryMetropolis.tune := true;
     BinaryMetropolis.tune_interval := 100;
     BinaryMetropolis.steps_until_tune := 100;
     BinaryMetropolis.accepted := 0 |}.

(** A one-row table of Python's power, enough for a step whose scaling is
    1.0: [x ** 1.0] is [x]; the table has no other exponent. *)
Definition pow_unit (x y : float) : result float :=
  if (y =? 1)%float then Ok x else Raise (ValueError "exponent not in table").

(** Uniform draws: 0.1 first, 0.9 ever after. *)
Definition low_then_high (i : nat) : float :=
  match i with
  | O => 0.1%float
  | _ => 0.9%float
  end.

(** ** Further notions *)

(** The factor [tune] applies at the rate [r]. *)
Definition multiplier (r : float) : float :=
  match first_match tune_table r with
  | Some m => m
  | None => 1%float
  end.

(** Every call of the sequence returns a state. *)
Fixpoint all_return (self : Metropolis.t) (calls : list Metropolis.call)
  : Prop :=
  match calls with
  | [] => True
  | c :: rest =>
      (exists q, fst (Metropolis.step self c) = Ok q) /\
      all_return (snd (Metropolis.step self c)) rest
  end.

(** After [n] calls the countdown is where a tuning event every
    [tune_interval] calls puts it. *)
Definition on_schedule (s : Metropolis.t) (n : Z) : Prop :=
  0 <= Metropolis.steps_until_tune s <= Metropolis.tune_interval s /\
  (0 < n -> Metropolis.steps_until_tune s < Metropolis.tune_interval s) /\
  (Metropolis.steps_until_tune s + n) mod Metropolis.tune_interval s = 0.

(** A float that is not NaN. *)
Definition not_nan (x : float) : bool := (x =? x)%float.

(** More sample objects and calls. *)

(** A call whose deviate has two elements for a state of three. *)
Definition misfit_call : Metropolis.call :=
  {| Metropolis.q0_of := [0%float; 0%float; 0%float];
     Metropolis.logp_of := flat_logp;
     Metropolis.dev_of := [0%float; 0%float]; Metropolis.u_of := 0.5%float |}.

(** A call with a deviate of one. *)
Definition unit_call : Metropolis.call :=
  {| Metropolis.q0_of := [0%float]; Metropolis.logp_of := flat_logp;
     Metropolis.dev_of := [1%float]; Metropolis.u_of := 0.5%float |}.

(** [Metropolis([x], tune_interval=2)]. *)
Definition paced_step : Metropolis.t :=
  {| Metropolis.proposal_dist :=
       {| family := normal_proposal; scale_S := [1%float] |};
     Metropolis.scaling := 1%float; Metropolis.tune := true;
     Metropolis.tune_interval := 2; Metropolis.steps_until_tune := 2;
     Metropolis.accepted := 0; Metropolis.discrete := [false] |}.

(** [Metropolis([x], scaling=0., tune_interval=1)]. *)
Definition frozen_step : Metropolis.t :=
  {| Metropolis.proposal_dist :=
       {| family := normal_proposal; scale_S := [1%float] |};
     Metropolis.scaling := 0%float; Metropolis.tune := true;
     Metropolis.tune_interval := 1; Metropolis.steps_until_tune := 1;
     Metropolis.accepted := 0; Metropolis.discrete := [false] |}.

(** [Metropolis([x], tune_interval=0)]. *)
Definition stalled_step : Metropolis.t :=
  {| Metropolis.proposal_dist :=
       {| family := normal_proposal; scale_S := [1%float] |};
     Metropolis.scaling := 1%float; Metropolis.tune := true;
     Metropolis.tune_interval := 0; Metropolis.steps_until_tune := 0;
     Metropolis.accepted := 0; Metropolis.discrete := [false] |}.

(** [Metropolis([x], tune_interval=-1)]. *)
Definition backward_step : Metropolis.t :=
  {| Metropolis.proposal_dist :=
       {| family := normal_proposal; scale_S := [1%float] |};
     Metropolis.scaling := 1%float; Metropolis.tune := true;
     Metropolis.tune_interval := -1; Metropolis.steps_until_tune := -1;
     Metropolis.accepted := 0; Metropolis.discrete := [false] |}.

(** [BinaryMetropolis([b], scaling=0.)]. *)
Definition still_binary_step : BinaryMetropolis.t :=
  {| BinaryMetropolis.scaling := 0%float; BinaryMetropolis.tune := true;
     BinaryMetropolis.tune_interval := 100;
     BinaryMetropolis.steps_until_tune := 100;
     BinaryMetropolis.accepted := 0 |}.

(** A two-row table of Python's power: [x ** 0.0] is 1 and [x ** 1.0] is
    [x]. *)
Definition pow_table (x y : float) : result float :=
  if (y =? 0)%float then Ok 1%float
  else if (y =? 1)%float then Ok x
  else Raise (ValueError "exponent not in table").

(** Uniform draws that are all one half. *)
Definition all_half (i : nat) : float := 0.5%float.

(** * Properties *)

(** ** Lists *)

Lemma zip_with_nth_error {A B C : Type} (f : A -> B -> C) (a : list A)
    (b : list B) (i : nat) :
  nth_error (zip_with f a b) i =
  match nth_error a i, nth_error b i with
  | Some x, Some y => Some (f x y)
  | _, _ => None
  end.
Proof.
  revert b i. induction a as [|x a IH]; intros [|y b] [|i]; cbn; auto;
    now destruct (nth_error a i).
Qed.

Lemma zip_with_length {A B C : Type} (f : A -> B -> C) (a : list A)
    (b : list B) :
  List.length a = List.length b ->
  List.length (zip_with f a b) = List.length b.
Proof.
  revert b. induction a as [|x a IH]; intros [|y b]; cbn; auto.
Qed.

Lemma nth_error_map_seq {A : Type} (f : nat -> A) (n i : nat) :
  (i < n)%nat -> nth_error (map f (seq 0 n)) i = Some (f i).
Proof.
  intros Hi. rewrite nth_error_map.
  rewrite (nth_error_nth' (seq 0 n) 0%nat) by (now rewrite length_seq).
  rewrite seq_nth by exact Hi. reflexivity.
Qed.

(** ** Order of floats against positive constants *)

Lemma SFleb_SFltb_below (ma mc : positive) (ea ec : Z) (x : spec_float) :
  sf_pos_le mc ec ma ea ->
  SFleb (S754_finite false ma ea) x = true ->
  SFltb x (S754_finite false mc ec) = false.
Proof.
  unfold sf_pos_le, SFleb, SFltb, SFcompare.
  intros Hle.
  destruct x as [s|s| |s m e]; try destruct s;
    try discriminate; try reflexivity.
  rewrite !Pos.compare_cont_spec; cbn [Pos.switch_Eq].
  destruct (Z.compare_spec ea e), (Z.compare_spec e ec);
    try lia; try discriminate; try reflexivity.
  destruct (Pos.compare_spec ma m), (Pos.compare_spec m mc);
    try lia; try discriminate; reflexivity.
Qed.

Lemma SFleb_SFltb_above (mb mc : positive) (eb ec : Z) (x : spec_float) :
  sf_pos_le mb eb mc ec ->
  SFleb x (S754_finite false mb eb) = true ->
  SFltb (S754_finite false mc ec) x = false.
Proof.
  unfold sf_pos_le, SFleb, SFltb, SFcompare.
  intros Hle.
  destruct x as [s|s| |s m e]; try destruct s;
    try discriminate; try reflexivity.
  rewrite !Pos.compare_cont_spec; cbn [Pos.switch_Eq].
  destruct (Z.compare_spec e eb), (Z.compare_spec ec e);
    try lia; try discriminate; try reflexivity.
  destruct (Pos.compare_spec m mb), (Pos.compare_spec mc m);
    try lia; try discriminate; reflexivity.
Qed.

(** A rate at or above [a] is not below any [c <= a]. *)
Lemma leb_ltb_below (a c r : float) (ma mc : positive) (ea ec : Z) :
  Prim2SF a = S754_finite false ma ea ->
  Prim2SF c = S754_finite false mc ec ->
  sf_pos_le mc ec ma ea ->
  (a <=? r)%float = true -> (r <? c)%float = false.
Proof.
  intros Ha Hc Hle. rewrite leb_spec, ltb_spec, Ha, Hc.
  now apply SFleb_SFltb_below.
Qed.

(** A rate at or below [b] is not above any [c >= b]. *)
Lemma leb_ltb_above (b c r : float) (mb mc : positive) (eb ec : Z) :
  Prim2SF b = S754_finite false mb eb ->
  Prim2SF c = S754_finite false mc ec ->
  sf_pos_le mb eb mc ec ->
  (r <=? b)%float = true -> (c <? r)%float = false.
Proof.
  intros Hb Hc Hle. rewrite leb_spec, ltb_spec, Hb, Hc.
  now apply SFleb_SFltb_above.
Qed.

Ltac sf_const := vm_compute; reflexivity.
Ltac sf_le :=
  unfold sf_pos_le; vm_compute;
  (left; reflexivity) || (right; split; [reflexivity | discriminate]).

Lemma is_finite_Prim2SF (x : float) :
  is_finite x = true ->
  (exists s, Prim2SF x = S754_zero s) \/
  (exists s m e, Prim2SF x = S754_finite s m e).
Proof.
  unfold is_finite. rewrite negb_true_iff, orb_false_iff. intros [Hn Hi].
  unfold Prim2SF. rewrite Hn, Hi.
  destruct (is_zero x); [left; eauto|].
  destruct (Z.frexp x) as [r ex].
  destruct (shr_fexp _ _ _ _ _) as [mrs e2].
  destruct (shr_m mrs); [left | right | left]; eauto.
Qed.

Lemma ltb_zero_not_leb (x : float) :
  (x <? 0)%float = true -> (0 <=? x)%float = false.
Proof.
  rewrite ltb_spec, leb_spec.
  change (Prim2SF 0) with (S754_zero false).
  destruct (Prim2SF x) as [s|s| |s m e]; try destruct s; cbn; congruence.
Qed.

Lemma F2R_nonneg (u : float) : (0 <=? u)%float = true -> (0 <= F2R u)%R.
Proof.
  rewrite leb_spec. unfold F2R.
  change (Prim2SF 0) with (S754_zero false).
  destruct (Prim2SF u) as [s|s| |s m e]; try destruct s; cbn;
    try congruence; try lra.
  intros _. apply Rmult_le_pos.
  - apply IZR_le. lia.
  - left. apply powerRZ_lt. lra.
Qed.

(** ** The scale tuner *)

Lemma tune_eq_table (s r : float) : tune s r = tune_by_table s r.
Proof.
  unfold tune, tune_by_table, tune_table, first_match, holds.
  repeat match goal with
         | |- context [if ?b then _ else _] => destruct b
         end; reflexivity.
Qed.

Lemma tune_unchanged_between (s r : float) :
  (0.2 <=? r)%float = true -> (r <=? 0.5)%float = true -> tune s r = s.
Proof.
  intros Hlo Hhi. unfold tune.
  rewrite (leb_ltb_below 0.2 0.001 r _ _ _ _
             ltac:(sf_const) ltac:(sf_const) ltac:(sf_le) Hlo).
  rewrite (leb_ltb_below 0.2 0.05 r _ _ _ _
             ltac:(sf_const) ltac:(sf_const) ltac:(sf_le) Hlo).
  rewrite (leb_ltb_below 0.2 0.2 r _ _ _ _
             ltac:(sf_const) ltac:(sf_const) ltac:(sf_le) Hlo).
  rewrite (leb_ltb_above 0.5 0.95 r _ _ _ _
             ltac:(sf_const) ltac:(sf_const) ltac:(sf_le) Hhi).
  rewrite (leb_ltb_above 0.5 0.75 r _ _ _ _
             ltac:(sf_const) ltac:(sf_const) ltac:(sf_le) Hhi).
  rewrite (leb_ltb_above 0.5 0.5 r _ _ _ _
             ltac:(sf_const) ltac:(sf_const) ltac:(sf_le) Hhi).
  reflexivity.
Qed.

(** C1: for every scale [s] (positive or not) and every rate [r], [tune s r]
    is [s] times the multiplier of the first row of the table
    <0.001 (x0.1), <0.05 (x0.5), <0.2 (x0.9), >0.95 (x10), >0.75 (x2),
    >0.5 (x1.1) whose condition [r] meets, and [s] itself when no row
    matches; a rate of 0.97 gives [s * 10.0], and every rate in [0.2, 0.5]
    returns [s] unchanged. *)
Theorem tune_first_match_wins (s r : float) :
  tune s r = tune_by_table s r /\
  tune s 0.97 = (s * 10.0)%float /\
  ((0.2 <=? r)%float = true -> (r <=? 0.5)%float = true -> tune s r = s).
Proof.
  split; [apply tune_eq_table|].
  split; [reflexivity|].
  apply tune_unchanged_between.
Qed.

Lemma tune_first_match_wins_witness :
  (0.2 <=? 0.3)%float = true /\ (0.3 <=? 0.5)%float = true /\
  tune 2.5 0.3 = 2.5%float.
Proof.
  split; [reflexivity|]. split; [reflexivity|].
  apply (proj2 (proj2 (tune_first_match_wins 2.5 0.3))); reflexivity.
Defined.

(** ** The accept/reject primitive *)

Lemma metrop_select_neg_infinity (u : float) (q q0 : vec) :
  (0 <=? u)%float = true -> metrop_select u neg_infinity q q0 = q0.
Proof.
  intros Hu. unfold metrop_select, below_exp, exp_of.
  change (0 <=? neg_infinity)%float with false.
  change (Prim2SF neg_infinity) with (S754_infinity true). cbv iota.
  destruct (Rlt_dec (F2R u) 0) as [H|H]; [|reflexivity].
  pose proof (F2R_nonneg u Hu). lra.
Qed.

Lemma metrop_select_either (u mr : float) (q q0 : vec) :
  metrop_select u mr q q0 = q \/ metrop_select u mr q q0 = q0.
Proof.
  unfold metrop_select.
  destruct (0 <=? mr)%float; [now left|].
  destruct (below_exp u mr); [now left | now right].
Qed.

(** C2: [metrop_select] returns the candidate when the log-probability
    difference is at least zero; for a finite negative difference it returns
    the candidate when the uniform draw [u] is below [exp] of the difference
    and the current state otherwise; for a difference of minus infinity and
    a draw [u >= 0] it returns the current state.  It is a total function:
    no input makes it raise. *)
Theorem metrop_select_decision (u mr : float) (q q0 : vec) :
  ((0 <=? mr)%float = true -> metrop_select u mr q q0 = q) /\
  (is_finite mr = true -> (mr <? 0)%float = true ->
     ((F2R u < exp (F2R mr))%R -> metrop_select u mr q q0 = q) /\
     (~ (F2R u < exp (F2R mr))%R -> metrop_select u mr q q0 = q0)) /\
  (mr = neg_infinity -> (0 <=? u)%float = true ->
     metrop_select u mr q q0 = q0).
Proof.
  split; [|split].
  - intros H. unfold metrop_select. now rewrite H.
  - intros Hfin Hneg. unfold metrop_select, below_exp, exp_of.
    rewrite (ltb_zero_not_leb _ Hneg).
    destruct (is_finite_Prim2SF _ Hfin) as [[s ->]|(s & m & e & ->)];
      destruct (Rlt_dec (F2R u) (exp (F2R mr))); split; intros; tauto.
  - intros -> Hu. now apply metrop_select_neg_infinity.
Qed.

Lemma metrop_select_decision_witness :
  (0 <=? 0.5)%float = true /\
  metrop_select 0.5 neg_infinity [1%float] [0%float] = [0%float].
Proof.
  split; [reflexivity|].
  apply (proj2 (proj2 (metrop_select_decision 0.5 neg_infinity
                         [1%float] [0%float]))); reflexivity.
Defined.

(** ** Rounding to 64-bit integers *)



(** Rounding an integer to a float never produces an exponent below -52:
    no float in (-1, 1) other than zero holds an integer. *)
Lemma shr_exponent (mrs : shr_record) (e n : Z) : e <= snd (shr mrs e n).
Proof. destruct n; cbn; lia. Qed.

Lemma binary_round_aux_exponent (sx : bool) (mx ex : Z) (lx : location)
    (s : bool) (m : positive) (e : Z) :
  binary_round_aux prec emax sx mx ex lx = S754_finite s m e -> ex <= e.
Proof.
  unfold binary_round_aux, shr_fexp.
  match goal with
  | |- context [shr ?a ?b ?c] =>
      pose proof (shr_exponent a b c) as H1;
      destruct (shr a b c) as [mrs1 e1]
  end.
  match goal with
  | |- context [shr ?a ?b ?c] =>
      pose proof (shr_exponent a b c) as H2;
      destruct (shr a b c) as [mrs2 e2]
  end.
  cbn [snd] in *.
  destruct (shr_m mrs2); try discriminate.
  destruct (e2 <=? emax - prec); [|discriminate].
  intros [= _ _ <-]. lia.
Qed.

Lemma binary_normalize_exponent (z : Z) (sz s : bool) (m : positive) (e : Z) :
  binary_normalize prec emax z 0 sz = S754_finite s m e -> -52 <= e.
Proof.
  assert (Hr : forall sx p,
             binary_round prec emax sx p 0 = S754_finite s m e -> -52 <= e).
  { intros sx p. unfold binary_round, shl_align.
    set (ex' := fexp prec emax (Z.pos (digits2_pos p) + 0)).
    assert (-52 <= ex') by (unfold ex', fexp, emin, prec, emax; lia).
    destruct (ex' - 0) eqn:Hd; intros H0;
      apply binary_round_aux_exponent in H0; lia. }
  destruct z; cbn; [discriminate | apply Hr | apply Hr].
Qed.

Lemma int64_to_float_exponent (z : Z) (s : bool) (m : positive) (e : Z) :
  Prim2SF (int64_to_float z) = S754_finite s m e -> -52 <= e.
Proof.
  unfold int64_to_float.
  destruct (z <? 0).
  - destruct (z =? int64_min).
    + intros H. vm_compute in H. injection H as _ _ <-. lia.
    + rewrite opp_spec, of_uint63_spec.
      destruct (binary_normalize _ _ _ _ _) as [| | |s' m' e'] eqn:Hb;
        try discriminate.
      cbn. intros [= _ _ <-]. now apply binary_normalize_exponent in Hb.
  - rewrite of_uint63_spec. apply binary_normalize_exponent.
Qed.

Lemma half_not_int64_valued : ~ int64_valued 0.5.
Proof.
  intros (z & _ & H).
  assert (Hs : Prim2SF (int64_to_float z)
               = S754_finite false 4503599627370496 (-53)).
  { rewrite <- H. reflexivity. }
  apply int64_to_float_exponent in Hs. lia.
Qed.


Lemma round_half_even_tie (n d : Z) :
  2 * (n mod d) = d -> Z.even (round_half_even n d) = true.
Proof.
  intros H. unfold round_half_even. rewrite H, Z.compare_refl.
  destruct (Z.even (n / d)) eqn:He; [exact He|].
  rewrite Z.even_add, He. reflexivity.
Qed.




(** ** The general step *)

Module MetropolisProps.

Local Abbreviation tune_scale := tune (only parsing).

Import Metropolis.

Ltac fields :=
  unfold counted, retuned, set_accepted, set_steps_until_tune, set_scaling;
  cbn [accepted steps_until_tune tune_interval tune scaling discrete
       proposal_dist].

Lemma tuning_eq (self : t) :
  tuning self =
  if due self then
    match acceptance_rate self with
    | Ok rate => (Ok tt, retuned self rate)
    | Raise e => (Raise e, self)
    end
  else (Ok tt, self).
Proof.
  unfold tuning, due, mbind, get, lift, modify, ret, retuned.
  destruct (tune self && (steps_until_tune self =? 0)); [|reflexivity].
  destruct (acceptance_rate self); reflexivity.
Qed.

Lemma astep_eq (q0 : vec) (logp : vec -> result float) (dev : vec) (u : float)
    (self : t) :
  astep q0 logp dev u self =
  match tuning self with
  | (Raise e, s1) => (Raise e, s1)
  | (Ok _, s1) =>
    match candidate s1 q0 dev with
    | Raise e => (Raise e, s1)
    | Ok q =>
      match log_ratio logp q q0 with
      | Raise e => (Raise e, s1)
      | Ok mr =>
        match counts_as_accepted (metrop_select u mr q q0) q0 q with
        | Raise e => (Raise e, s1)
        | Ok hit => (Ok (metrop_select u mr q q0), counted hit s1)
        end
      end
    end
  end.
Proof.
  unfold astep, counted. unfold mbind at 1.
  destruct (tuning self) as [[[]|e] s1]; [|reflexivity].
  unfold mbind, get, lift, modify, ret.
  destruct (candidate s1 q0 dev) as [q|e]; [|reflexivity].
  destruct (log_ratio logp q q0) as [mr|e]; [|reflexivity].
  destruct (counts_as_accepted _ q0 q) as [[|]|e]; reflexivity.
Qed.

(** What a call leaves behind is the object after its tuning phase, or that
    object with the counter and the countdown updated. *)
Lemma step_state (self : t) (c : call) :
  snd (step self c) = snd (tuning self) \/
  exists hit, snd (step self c) = counted hit (snd (tuning self)).
Proof.
  unfold step. rewrite astep_eq.
  destruct (tuning self) as [[[]|e] s1]; cbn [snd]; [|now left].
  destruct (candidate s1 _ _) as [q|e]; [|now left].
  destruct (log_ratio _ q _) as [mr|e]; [|now left].
  destruct (counts_as_accepted _ _ q) as [hit|e]; [|now left].
  right. now exists hit.
Qed.

Lemma acceptance_rate_ok (self : t) (rate : float) :
  acceptance_rate self = Ok rate -> tune_interval self <> 0.
Proof.
  unfold acceptance_rate. intros H Hz.
  rewrite Hz in H. change (py_float 0) with (Ok 0%float) in H.
  unfold bind, py_int_truediv in H.
  destruct (py_float (accepted self)); cbn in H; discriminate.
Qed.

Lemma step_cases (self : t) (c : call) :
  snd (step self c) = self \/
  (due self = false /\ exists hit, snd (step self c) = counted hit self) \/
  (due self = true /\ exists rate, acceptance_rate self = Ok rate /\
     (snd (step self c) = retuned self rate \/
      exists hit, snd (step self c) = counted hit (retuned self rate))).
Proof.
  unfold step. rewrite astep_eq, tuning_eq.
  destruct (due self) eqn:Hdue.
  - destruct (acceptance_rate self) as [rate|e] eqn:Hr; [|now left].
    right; right. split; [reflexivity|]. exists rate. split; [reflexivity|].
    destruct (candidate _ _ _) as [q|e]; [|now left].
    destruct (log_ratio _ q _) as [mr|e]; [|now left].
    destruct (counts_as_accepted _ _ q) as [hit|e]; [|now left].
    right. now exists hit.
  - destruct (candidate _ _ _) as [q|e]; [|now left].
    destruct (log_ratio _ q _) as [mr|e]; [|now left].
    destruct (counts_as_accepted _ _ q) as [hit|e]; [|now left].
    right; left. split; [reflexivity|]. now exists hit.
Qed.

Lemma step_frame (self : t) (c : call) :
  tune (snd (step self c)) = tune self /\
  tune_interval (snd (step self c)) = tune_interval self /\
  discrete (snd (step self c)) = discrete self /\
  proposal_dist (snd (step self c)) = proposal_dist self.
Proof.
  destruct (step_cases self c)
    as [->|[[_ [hit ->]]|[_ (rate & _ & [->|[hit ->]])]]];
    try destruct hit; cbn; auto.
Qed.

Lemma step_scaling (self : t) (c : call) :
  scaling (snd (step self c)) = scaling self \/
  (due self = true /\ exists rate, acceptance_rate self = Ok rate /\
     scaling (snd (step self c)) = tune_scale (scaling self) rate).
Proof.
  destruct (step_cases self c)
    as [->|[[_ [hit ->]]|[Hd (rate & Hr & [->|[hit ->]])]]];
    try (left; destruct hit; reflexivity); try (now left);
    right; (split; [assumption|]); exists rate; (split; [assumption|]);
    try destruct hit; reflexivity.
Qed.

Lemma step_counters_ok (self : t) (c : call) :
  tune self = true -> 0 <= tune_interval self ->
  counters_ok self -> counters_ok (snd (step self c)).
Proof.
  unfold counters_ok. intros Ht Hti (Hs & Ha & Hsum).
  destruct (step_cases self c)
    as [->|[[Hd [hit ->]]|[Hd (rate & Hr & [->|[hit ->]])]]].
  - auto.
  - unfold due in Hd. rewrite Ht in Hd. cbn in Hd. apply Z.eqb_neq in Hd.
    destruct hit; fields; lia.
  - fields. lia.
  - apply acceptance_rate_ok in Hr.
    destruct hit; fields; lia.
Qed.

Lemma run_cons (self : t) (c : call) (calls : list call) :
  run self (c :: calls) = run (snd (step self c)) calls.
Proof. reflexivity. Qed.

Lemma run_frame (self : t) (calls : list call) :
  tune (run self calls) = tune self /\
  tune_interval (run self calls) = tune_interval self.
Proof.
  revert self. induction calls as [|c calls IH]; intros self; [now split|].
  rewrite run_cons. destruct (IH (snd (step self c))) as [-> ->].
  destruct (step_frame self c) as (-> & -> & _). now split.
Qed.

Lemma run_counters_ok (self : t) (calls : list call) :
  tune self = true -> 0 <= tune_interval self ->
  counters_ok self -> counters_ok (run self calls).
Proof.
  revert self. induction calls as [|c calls IH]; intros self Ht Hti Hok;
    [exact Hok|].
  rewrite run_cons. destruct (step_frame self c) as (Ht' & Hti' & _).
  apply IH; [congruence | lia | now apply step_counters_ok].
Qed.

Lemma tuning_lockstep (self : t) :
  (accepted (snd (tuning self)) = accepted self /\
   steps_until_tune (snd (tuning self)) = steps_until_tune self) \/
  (accepted (snd (tuning self)) = 0 /\
   steps_until_tune (snd (tuning self)) = tune_interval self).
Proof.
  rewrite tuning_eq. destruct (due self); [|now left].
  destruct (acceptance_rate self); [now right | now left].
Qed.

Lemma step_after_tuning (self : t) (c : call) :
  accepted (snd (tuning self)) <= accepted (snd (step self c))
    <= accepted (snd (tuning self)) + 1.
Proof.
  destruct (step_state self c) as [->|[hit ->]]; [lia|].
  destruct hit; fields; lia.
Qed.

(** C3 (amended): on a step with tuning enabled and a non-negative tune
    interval, whose counter and countdown lie within the interval (as they
    do after construction), the acceptance counter stays between 0 and the
    tune interval after every sequence of [astep] calls, whatever their
    outcomes; the tuning phase of a call either leaves the counter and the
    countdown as they are or sets the counter to 0 and the countdown to the
    tune interval together; and the rest of the call never lowers the
    counter. *)
Theorem counter_bounded_when_tuning (self : t) (calls : list call) :
  tune self = true -> 0 <= tune_interval self -> counters_ok self ->
  0 <= accepted (run self calls) <= tune_interval (run self calls) /\
  (forall s : t,
     (accepted (snd (tuning s)) = accepted s /\
      steps_until_tune (snd (tuning s)) = steps_until_tune s) \/
     (accepted (snd (tuning s)) = 0 /\
      steps_until_tune (snd (tuning s)) = tune_interval s)) /\
  (forall (s : t) (c : call),
     accepted (snd (tuning s)) <= accepted (snd (step s c))).
Proof.
  intros Ht Hti Hok. split; [|split].
  - destruct (run_counters_ok self calls Ht Hti Hok) as (Hs & Ha & Hsum). lia.
  - apply tuning_lockstep.
  - intros s c. apply step_after_tuning.
Qed.

(** C8: a call of [astep] that changes the scaling was entered with tuning
    enabled and the countdown at zero; a call entered with tuning disabled
    or with a non-zero countdown leaves the scaling as it was; and with
    tuning disabled the scaling is the same after any sequence of calls. *)
Theorem scaling_changes_only_when_tuning (self : t) (c : call) :
  (scaling (snd (step self c)) <> scaling self ->
   tune self = true /\ steps_until_tune self = 0) /\
  (tune self = false \/ steps_until_tune self <> 0 ->
   scaling (snd (step self c)) = scaling self) /\
  (forall calls : list call,
     tune self = false -> scaling (run self calls) = scaling self).
Proof.
  assert (Hstep : forall s k,
             due s = false -> scaling (snd (step s k)) = scaling s).
  { intros s k Hd. destruct (step_scaling s k) as [H|[H _]]; congruence. }
  split; [|split].
  - intros Hne. destruct (due self) eqn:Hd.
    + unfold due in Hd. apply andb_true_iff in Hd. destruct Hd as [Ht Hs].
      apply Z.eqb_eq in Hs. now split.
    + elim Hne. now apply Hstep.
  - intros H. apply Hstep. unfold due.
    destruct H as [->|H]; [reflexivity|].
    apply Z.eqb_neq in H. rewrite H. apply andb_false_r.
  - intros calls. revert self.
    induction calls as [|k calls IH]; intros self Ht; [reflexivity|].
    rewrite run_cons. destruct (step_frame self k) as (Ht' & _).
    rewrite IH by congruence. apply Hstep. unfold due. now rewrite Ht.
Qed.

Lemma any_ne_differs (a b : vec) :
  any (zip_with (fun x y => negb (x =? y)%float) a b) = true <-> differs a b.
Proof.
  unfold differs. revert b. induction a as [|x a IH]; intros [|y b]; cbn.
  - split; [discriminate|]. intros ([|i] & x & y & H & _); discriminate.
  - split; [discriminate|]. intros ([|i] & x & y0 & H & _); discriminate.
  - split; [discriminate|]. intros ([|i] & x0 & y & _ & H & _); discriminate.
  - rewrite orb_true_iff, IH, negb_true_iff. split.
    + intros [H|(i & x' & y' & H)].
      * exists 0%nat, x, y. auto.
      * exists (Datatypes.S i), x', y'. exact H.
    + intros ([|i] & x' & y' & Ha & Hb & Hne); cbn in Ha, Hb.
      * left. congruence.
      * right. exists i, x', y'. auto.
Qed.

Lemma all_eq_coincide (a b : vec) :
  all (zip_with (fun x y => (x =? y)%float) a b) = true <-> coincide a b.
Proof.
  unfold coincide. revert b. induction a as [|x a IH]; intros [|y b]; cbn.
  - split; [|reflexivity]. intros _ [|i] x y H; discriminate.
  - split; [|reflexivity]. intros _ [|i] x y0 H; discriminate.
  - split; [|reflexivity]. intros _ [|i] x0 y _ H; discriminate.
  - rewrite andb_true_iff, IH. split.
    + intros [H Hrest] [|i] x' y' Ha Hb; cbn in Ha, Hb.
      * congruence.
      * eapply Hrest; eassumption.
    + intros H. split.
      * apply (H 0%nat); reflexivity.
      * intros i x' y'. apply (H (Datatypes.S i)).
Qed.

Lemma counts_as_accepted_same_shape (q_new q0 q : vec) (hit : bool) :
  List.length q_new = List.length q0 -> List.length q = List.length q0 ->
  counts_as_accepted q_new q0 q = Ok hit ->
  (hit = true <-> differs q_new q0 \/ coincide q0 q).
Proof.
  intros Hn Hq. unfold counts_as_accepted, np_ne, np_eq, broadcast2.
  rewrite Hn, Hq, Nat.eqb_refl. cbn [bind].
  destruct (any _) eqn:Hany.
  - intros [= <-]. apply any_ne_differs in Hany. tauto.
  - intros [= <-]. rewrite all_eq_coincide. split; [tauto|].
    intros [H|H]; [|exact H].
    apply any_ne_differs in H. congruence.
Qed.

(** The pairs of an elementwise operation, whatever the shapes. *)
Lemma supplied_In (a : vec) (x : float) :
  (exists i, supplied a i = Some x) <-> In x a.
Proof.
  destruct a as [|y [|z a]]; cbn [supplied].
  - split; [intros [[|i] H]; discriminate | intros []].
  - split; [intros [_ [= ->]]; now left | intros [->|[]]; now exists 0%nat].
  - split; [intros [i H]; eapply nth_error_In; exact H | apply In_nth_error].
Qed.

Lemma zip_with_In {C : Type} (f : float -> float -> C) (a b : vec) (v : C) :
  In v (zip_with f a b) <->
  exists i x y, nth_error a i = Some x /\ nth_error b i = Some y /\
                v = f x y.
Proof.
  split.
  - intros [i H]%In_nth_error. rewrite zip_with_nth_error in H.
    destruct (nth_error a i) as [x|] eqn:Hx; [|discriminate].
    destruct (nth_error b i) as [y|] eqn:Hy; [|discriminate].
    injection H as <-. now exists i, x, y.
  - intros (i & x & y & Hx & Hy & ->). apply (nth_error_In _ i).
    now rewrite zip_with_nth_error, Hx, Hy.
Qed.

Lemma supplied_same_length (a b : vec) (P : float -> float -> Prop) :
  List.length a = List.length b ->
  (exists i x y, supplied a i = Some x /\ supplied b i = Some y /\ P x y) <->
  (exists i x y, nth_error a i = Some x /\ nth_error b i = Some y /\ P x y).
Proof.
  destruct a as [|x [|x' a]], b as [|y [|y' b]]; cbn [List.length supplied];
    try discriminate; intros _; try reflexivity.
  split.
  - intros (_ & x0 & y0 & [= <-] & [= <-] & H). now exists 0%nat, x, y.
  - intros ([|[|i]] & x0 & y0 & Hx & Hy & H); try discriminate.
    exists 0%nat, x0, y0. cbn in Hx, Hy. auto.
Qed.

Lemma broadcast2_In {C : Type} (f : float -> float -> C) (a b : vec)
    (l : list C) (v : C) :
  broadcast2 f a b = Ok l ->
  In v l <->
  exists i x y, supplied a i = Some x /\ supplied b i = Some y /\ v = f x y.
Proof.
  unfold broadcast2.
  destruct (Nat.eqb_spec (List.length a) (List.length b)) as [Hlen|Hlen].
  - intros [= <-]. rewrite zip_with_In. symmetry.
    now apply (supplied_same_length a b (fun x y => v = f x y)).
  - assert (Hl : forall x, Ok (map (f x) b) = Ok l ->
              In v l <-> exists i x0 y, Some x = Some x0 /\
                                        supplied b i = Some y /\ v = f x0 y).
    { intros x [= <-]. rewrite in_map_iff. split.
      - intros (y & <- & [i Hy]%supplied_In). now exists i, x, y.
      - intros (i & x0 & y & [= <-] & Hy & ->). exists y. split; [easy|].
        apply supplied_In. now exists i. }
    assert (Hr : forall y, Ok (map (fun x => f x y) a) = Ok l ->
              In v l <-> exists i x y0, supplied a i = Some x /\
                                        Some y = Some y0 /\ v = f x y0).
    { intros y [= <-]. rewrite in_map_iff. split.
      - intros (x & <- & [i Hx]%supplied_In). now exists i, x, y.
      - intros (i & x & y0 & Hx & [= <-] & ->). exists x. split; [easy|].
        apply supplied_In. now exists i. }
    destruct a as [|x [|x' a]].
    + destruct b as [|y [|y' b]]; try discriminate. apply (Hr y).
    + apply (Hl x).
    + destruct b as [|y [|y' b]]; try discriminate. apply (Hr y).
Qed.

Lemma np_ne_differs_paired (a b : vec) (l : list bool) :
  np_ne a b = Ok l -> (any l = true <-> differs_paired a b).
Proof.
  intros H. unfold any, differs_paired. rewrite existsb_exists. split.
  - intros (v & Hv & ->).
    apply (broadcast2_In _ _ _ _ _ H) in Hv as (i & x & y & Hx & Hy & Hne).
    exists i, x, y. symmetry in Hne. apply negb_true_iff in Hne. auto.
  - intros (i & x & y & Hx & Hy & Hne). exists true. split; [|reflexivity].
    apply (broadcast2_In _ _ _ _ _ H). exists i, x, y.
    now rewrite Hne.
Qed.

Lemma np_eq_coincide_paired (a b : vec) (l : list bool) :
  np_eq a b = Ok l -> (all l = true <-> coincide_paired a b).
Proof.
  intros H. unfold all, coincide_paired. rewrite forallb_forall. split.
  - intros Hall i x y Hx Hy. apply Hall.
    apply (broadcast2_In _ _ _ _ _ H). now exists i, x, y.
  - intros Hco v Hv.
    apply (broadcast2_In _ _ _ _ _ H) in Hv as (i & x & y & Hx & Hy & ->).
    eapply Hco; eassumption.
Qed.

Lemma counts_as_accepted_paired (q_new q0 q : vec) (hit : bool) :
  counts_as_accepted q_new q0 q = Ok hit ->
  (hit = true <-> differs_paired q_new q0 \/ coincide_paired q0 q).
Proof.
  unfold counts_as_accepted.
  destruct (np_ne q_new q0) as [moved|e] eqn:Hne; [|discriminate].
  cbn [bind]. pose proof (np_ne_differs_paired _ _ _ Hne) as Hd.
  destruct (any moved).
  - intros [= <-]. tauto.
  - destruct (np_eq q0 q) as [same|e] eqn:Heq; [|discriminate].
    cbn [bind]. intros [= <-]. rewrite (np_eq_coincide_paired _ _ _ Heq).
    split; [tauto|]. intros [Hx|Hx]; [|exact Hx].
    apply Hd in Hx. discriminate.
Qed.

(** C4 (amended): in a call of [astep] that returns, the counter ends at
    its value after the call's tuning phase plus one when the test of line 96
    holds, and at that value otherwise; the value after the tuning phase is
    0 when the call was entered with tuning enabled and the countdown at
    zero, and the value at entry otherwise.  The test holds iff the returned
    state differs from the input state in some coordinate or the candidate
    equals the input state in every coordinate, the coordinates paired as
    the comparisons of line 96 pair them: a state of one element is compared
    with every coordinate of a longer candidate, and for a candidate of the
    shape of the state the pairs are the coordinates of equal index. *)
Theorem accepted_counted_after_tuning (self : t) (c : call) (q_new : vec)
    (self' : t) :
  step self c = (Ok q_new, self') ->
  exists q hit,
    candidate (snd (tuning self)) (q0_of c) (dev_of c) = Ok q /\
    counts_as_accepted q_new (q0_of c) q = Ok hit /\
    (hit = true <->
     differs_paired q_new (q0_of c) \/ coincide_paired (q0_of c) q) /\
    (List.length q = List.length (q0_of c) ->
     (hit = true <-> differs q_new (q0_of c) \/ coincide (q0_of c) q)) /\
    accepted self' = accepted (snd (tuning self)) + (if hit then 1 else 0) /\
    accepted (snd (tuning self)) =
      (if tune self && (steps_until_tune self =? 0) then 0 else accepted self).
Proof.
  unfold step. rewrite astep_eq.
  assert (Hacc : forall u s1, tuning self = (Ok u, s1) ->
            accepted s1 = if due self then 0 else accepted self).
  { intros u s1. rewrite tuning_eq. destruct (due self).
    - destruct (acceptance_rate self); intros H; inversion H; reflexivity.
    - intros H; inversion H; reflexivity. }
  destruct (tuning self) as [[[]|e] s1] eqn:Ht; [|discriminate].
  cbn [snd].
  destruct (candidate s1 _ _) as [q|e] eqn:Hc; [|discriminate].
  destruct (log_ratio _ q _) as [mr|e]; [|discriminate].
  destruct (counts_as_accepted _ _ q) as [hit|e] eqn:Hh; [|discriminate].
  intros [= <- <-]. exists q, hit.
  split; [reflexivity|]. split; [exact Hh|].
  split; [now apply counts_as_accepted_paired|]. split; [|split].
  - intros Hlen. apply counts_as_accepted_same_shape; auto.
    destruct (metrop_select_either (u_of c) mr q (q0_of c)) as [-> | ->]; auto.
  - destruct hit; fields; lia.
  - apply (Hacc tt). reflexivity.
Qed.

(** *** The candidate and the discrete mask *)






Lemma step_returns (self : t) (c : call) (q_new : vec) (self' : t) :
  step self c = (Ok q_new, self') ->
  q_new = q0_of c \/
  candidate (snd (tuning self)) (q0_of c) (dev_of c) = Ok q_new.
Proof.
  unfold step. rewrite astep_eq.
  destruct (tuning self) as [[[]|e] s1]; [|discriminate]. cbn [snd].
  destruct (candidate s1 _ _) as [q|e]; [|discriminate].
  destruct (log_ratio _ q _) as [mr|e]; [|discriminate].
  destruct (counts_as_accepted _ _ q) as [hit|e]; [|discriminate].
  intros [= <- _].
  destruct (metrop_select_either (u_of c) mr q (q0_of c)) as [-> | ->]; auto.
Qed.

Lemma tuning_discrete (self : t) :
  discrete (snd (tuning self)) = discrete self.
Proof.
  rewrite tuning_eq. destruct (due self); [|reflexivity].
  destruct (acceptance_rate self); reflexivity.
Qed.



(** *** Runs of the sample objects *)

Lemma counter_bounded_when_tuning_witness :
  tune default_step = true /\ 0 <= tune_interval default_step /\
  counters_ok default_step /\
  0 <= accepted (run default_step [still_call; still_call])
    <= tune_interval (run default_step [still_call; still_call]).
Proof.
  assert (H1 : tune default_step = true) by reflexivity.
  assert (H2 : 0 <= tune_interval default_step) by (cbn; lia).
  assert (H3 : counters_ok default_step) by (unfold counters_ok; cbn; lia).
  split; [exact H1|]. split; [exact H2|]. split; [exact H3|].
  exact (proj1 (counter_bounded_when_tuning default_step
                  [still_call; still_call] H1 H2 H3)).
Defined.

(** C3 as stated fails: [Metropolis([x], tune=False, tune_interval=1)] has
    counted two acceptances after two calls that propose the current state,
    one more than its tune interval. *)
Lemma untuned_counter_exceeds_interval :
  init (Model := unit) ["int64"%string] (Some tt) [float_var] None None None
       (Some false) (Some 1) None = Ok untuned_step /\
  accepted (run untuned_step [still_call; still_call]) = 2 /\
  tune_interval (run untuned_step [still_call; still_call]) = 1.
Proof. split; [|split]; vm_compute; reflexivity. Qed.

Lemma accepted_counted_after_tuning_witness :
  step eager_step still_call
    = (Ok [0%float], snd (step eager_step still_call)) /\
  exists q hit,
    candidate (snd (tuning eager_step)) (q0_of still_call)
              (dev_of still_call) = Ok q /\
    counts_as_accepted [0%float] (q0_of still_call) q = Ok hit /\
    (hit = true <->
     differs_paired [0%float] (q0_of still_call) \/
     coincide_paired (q0_of still_call) q) /\
    (List.length q = List.length (q0_of still_call) ->
     (hit = true <->
      differs [0%float] (q0_of still_call) \/
      coincide (q0_of still_call) q)) /\
    accepted (snd (step eager_step still_call))
      = accepted (snd (tuning eager_step)) + (if hit then 1 else 0) /\
    accepted (snd (tuning eager_step)) =
      (if tune eager_step && (steps_until_tune eager_step =? 0)
       then 0 else accepted eager_step).
Proof.
  assert (H : step eager_step still_call
              = (Ok [0%float], snd (step eager_step still_call)))
    by (vm_compute; reflexivity).
  split; [exact H|].
  exact (accepted_counted_after_tuning eager_step still_call [0%float] _ H).
Defined.

(** C4 as stated fails: [Metropolis([x], tune_interval=1)] enters its second
    call with the counter at 1; the call tunes, passes the test of line 96
    and returns with the counter at 1 again, not at 2. *)
Lemma tuning_call_restarts_counter :
  init (Model := unit) ["int64"%string] (Some tt) [float_var] None None None
       None (Some 1) None = Ok eager_step /\
  accepted (run eager_step [still_call]) = 1 /\
  fst (step (run eager_step [still_call]) still_call) = Ok [0%float] /\
  counts_as_accepted [0%float] [0%float] [0%float] = Ok true /\
  accepted (snd (step (run eager_step [still_call]) still_call)) = 1.
Proof. repeat split; vm_compute; reflexivity. Qed.

Lemma scaling_changes_only_when_tuning_witness :
  tune untuned_step = false /\
  scaling (run untuned_step [still_call; still_call]) = scaling untuned_step.
Proof.
  split; [reflexivity|].
  exact (proj2 (proj2 (scaling_changes_only_when_tuning untuned_step
                         still_call))
           [still_call; still_call] eq_refl).
Defined.


End MetropolisProps.

(** *** The constructor *)

Module MetropolisInit.

Import Metropolis.

Lemma init_fields {Model : Type} (discrete_types : list string)
    (context : option Model) (vars : list var) (S_arg : option vec)
    (proposal_dist_arg : option proposal_family) (scaling_arg : option float)
    (tune_arg : option bool) (tune_interval_arg : option Z)
    (model : option Model) (self : t) :
  init discrete_types context vars S_arg proposal_dist_arg scaling_arg
       tune_arg tune_interval_arg model = Ok self ->
  family (proposal_dist self) = default normal_proposal proposal_dist_arg /\
  scale_S (proposal_dist self)
    = default (repeat 1%float (List.length vars)) S_arg /\
  steps_until_tune self = tune_interval self /\ accepted self = 0 /\
  discrete self = map (is_discrete discrete_types) vars.
Proof.
  unfold init. destruct (modelcontext context model); [|discriminate].
  cbn [bind]. intros [= <-]. cbn. destruct S_arg; auto.
Qed.

Lemma init_counters_ok {Model : Type} (discrete_types : list string)
    (context : option Model) (vars : list var) (S_arg : option vec)
    (proposal_dist_arg : option proposal_family) (scaling_arg : option float)
    (tune_arg : option bool) (tune_interval_arg : option Z)
    (model : option Model) (self : t) :
  init discrete_types context vars S_arg proposal_dist_arg scaling_arg
       tune_arg tune_interval_arg model = Ok self ->
  0 <= tune_interval self -> counters_ok self.
Proof.
  intros H Hti.
  destruct (init_fields _ _ _ _ _ _ _ _ _ _ H) as (_ & _ & Hs & Ha & _).
  unfold counters_ok. lia.
Qed.

(** C5, on the code: a step constructed without a proposal-family
    constructor and without [S] draws from [normal_proposal], which is not
    the quadratic-form proposal, with a scale of one 1 per variable. *)
Theorem default_proposal_is_normal {Model : Type}
    (discrete_types : list string) (context : option Model)
    (vars : list var) (scaling_arg : option float) (tune_arg : option bool)
    (tune_interval_arg : option Z) (model : option Model) (self : t) :
  init discrete_types context vars None None scaling_arg tune_arg
       tune_interval_arg model = Ok self ->
  family (proposal_dist self) = normal_proposal /\
  family (proposal_dist self) <> quad_potential /\
  scale_S (proposal_dist self) = repeat 1%float (List.length vars).
Proof.
  intros H. destruct (init_fields _ _ _ _ _ _ _ _ _ _ H) as (Hf & HS & _).
  cbn [default] in Hf, HS. rewrite Hf. repeat split; [discriminate | exact HS].
Qed.

Lemma default_proposal_is_normal_witness :
  init (Model := unit) ["int64"%string] (Some tt) [float_var] None None None
       None None None = Ok default_step /\
  family (proposal_dist default_step) = normal_proposal /\
  family (proposal_dist default_step) <> quad_potential /\
  scale_S (proposal_dist default_step) = repeat 1%float 1.
Proof.
  assert (H : init (Model := unit) ["int64"%string] (Some tt) [float_var]
                None None None None None None = Ok default_step)
    by reflexivity.
  split; [exact H|].
  exact (default_proposal_is_normal _ _ _ _ _ _ _ _ H).
Defined.

End MetropolisInit.

(** ** The binary step *)

Module BinaryProps.

Import BinaryMetropolis.

Lemma binary_init_outcome {Model : Type} (discrete_types : list string)
    (context : option Model) (vars : list var) (scaling_arg : option float)
    (tune_arg : option bool) (tune_interval_arg : option Z)
    (model : option Model) :
  init discrete_types context vars scaling_arg tune_arg tune_interval_arg
       model =
  match modelcontext context model with
  | Raise e => Raise e
  | Ok _ =>
      if forallb (is_discrete discrete_types) vars
      then Ok {| scaling := default 1%float scaling_arg;
                 tune := default true tune_arg;
                 tune_interval := default 100 tune_interval_arg;
                 steps_until_tune := default 100 tune_interval_arg;
                 accepted := 0 |}
      else Raise (ValueError
                    "All variables must be Bernoulli for BinaryMetropolis")
  end.
Proof.
  unfold init. destruct (modelcontext context model); [|reflexivity].
  cbn [bind]. now destruct (forallb _ vars).
Qed.

(** C6, on the code: [BinaryMetropolis([n])] for a Poisson count [n] of an
    integer dtype constructs a step, as it does for a Bernoulli variable of
    that dtype; only a variable of a dtype outside [discrete_types] makes the
    constructor raise. *)
Theorem binary_init_accepts_counts :
  init (Model := unit) ["int64"%string] (Some tt) [int_var] None None None
       None = Ok binary_step /\
  init (Model := unit) ["int64"%string] (Some tt) [bernoulli_var] None None
       None None = Ok binary_step /\
  init (Model := unit) ["int64"%string] (Some tt) [float_var; bernoulli_var]
       None None None None
  = Raise (ValueError "All variables must be Bernoulli for BinaryMetropolis").
Proof. repeat split. Qed.

(** *** [astep] *)

Lemma binary_astep_eq (py_pow : float -> float -> result float) (q0 : vec)
    (logp : vec -> result float) (rand : nat -> float) (u : float)
    (self : t) :
  astep py_pow q0 logp rand u self =
  match py_pow 0.5%float (scaling self) with
  | Raise e => (Raise e, self)
  | Ok half_pow =>
      match log_ratio logp (proposed half_pow rand q0) q0 with
      | Raise e => (Raise e, self)
      | Ok mr =>
          (Ok (metrop_select u mr (proposed half_pow rand q0) q0), self)
      end
  end.
Proof.
  unfold astep, mbind, get, lift, ret.
  destruct (py_pow _ _) as [half_pow|e]; [|reflexivity].
  destruct (log_ratio _ _ _); reflexivity.
Qed.

(** C9: a call of [BinaryMetropolis.astep] returns the object as it
    received it, whatever the state, the callable, the draws and the
    outcome: the scaling, the acceptance counter and the tune countdown are
    unchanged. *)
Theorem binary_astep_leaves_fields
    (py_pow : float -> float -> result float) (q0 : vec)
    (logp : vec -> result float) (rand : nat -> float) (u : float)
    (self : t) :
  snd (astep py_pow q0 logp rand u self) = self /\
  scaling (snd (astep py_pow q0 logp rand u self)) = scaling self /\
  accepted (snd (astep py_pow q0 logp rand u self)) = accepted self /\
  steps_until_tune (snd (astep py_pow q0 logp rand u self))
    = steps_until_tune self.
Proof.
  assert (H : snd (astep py_pow q0 logp rand u self) = self).
  { rewrite binary_astep_eq. destruct (py_pow _ _); [|reflexivity].
    destruct (log_ratio _ _ _); reflexivity. }
  rewrite H. repeat split.
Qed.

Lemma eqb_zero_Prim2SF (x : float) :
  (x =? 0)%float = true -> exists s, Prim2SF x = S754_zero s.
Proof.
  rewrite eqb_spec. change (Prim2SF 0) with (S754_zero false).
  unfold SFeqb, SFcompare.
  destruct (Prim2SF x) as [s|s| |s m e]; try destruct s;
    try discriminate; eauto.
Qed.

Lemma eqb_one_eq (x : float) : (x =? 1)%float = true -> x = 1%float.
Proof.
  rewrite eqb_spec. intros H. apply Prim2SF_inj.
  change (Prim2SF 1) with (S754_finite false 4503599627370496 (-52)) in *.
  unfold SFeqb, SFcompare in H.
  destruct (Prim2SF x) as [s|s| |s m e]; try destruct s;
    try discriminate.
  destruct (Z.compare_spec e (-52)); try discriminate. subst e.
  rewrite Pos.compare_cont_spec in H. cbn [Pos.switch_Eq] in H.
  destruct (Pos.compare_spec m 4503599627370496); try discriminate.
  now subst m.
Qed.

(** [True - x] of a bit is a bit. *)
Lemma flip_bit (x : float) : is_bit x = true -> is_bit (1 - x) = true.
Proof.
  unfold is_bit. intros [H|H]%orb_true_iff.
  - destruct (eqb_zero_Prim2SF x H) as [s Hs].
    assert (H1 : (1 - x)%float = 1%float).
    { apply Prim2SF_inj. rewrite sub_spec, Hs. reflexivity. }
    rewrite H1. reflexivity.
  - rewrite (eqb_one_eq x H). reflexivity.
Qed.

Lemma candidate_bits (p_jump : float) (rand_array q0 : vec) :
  Forall (fun x => is_bit x = true) q0 ->
  Forall (fun x => is_bit x = true) (candidate p_jump rand_array q0).
Proof.
  unfold candidate. intros H. revert rand_array.
  induction H as [|x q0 Hx _ IH]; intros [|r rand_array]; cbn;
    try constructor.
  - destruct (r <? p_jump)%float; [now apply flip_bit | exact Hx].
  - apply IH.
Qed.

(** C10: for an input state of zeros and ones, a call of
    [BinaryMetropolis.astep] that returns has built a candidate of zeros and
    ones of the length of the input, returns the candidate or the input, so
    a state of zeros and ones, and every candidate element whose uniform
    draw is not below the flip probability is the input element. *)
Theorem binary_states_stay_binary
    (py_pow : float -> float -> result float) (q0 : vec)
    (logp : vec -> result float) (rand : nat -> float) (u : float)
    (self : t) (q_new : vec) (self' : t) :
  Forall (fun x => is_bit x = true) q0 ->
  astep py_pow q0 logp rand u self = (Ok q_new, self') ->
  exists half_pow,
    py_pow 0.5%float (scaling self) = Ok half_pow /\
    (q_new = proposed half_pow rand q0 \/ q_new = q0) /\
    Forall (fun x => is_bit x = true) (proposed half_pow rand q0) /\
    Forall (fun x => is_bit x = true) q_new /\
    List.length (proposed half_pow rand q0) = List.length q0 /\
    forall i x,
      nth_error q0 i = Some x ->
      (rand i <? 1 - half_pow)%float = false ->
      nth_error (proposed half_pow rand q0) i = Some x.
Proof.
  intros Hbits. rewrite binary_astep_eq.
  destruct (py_pow _ _) as [half_pow|e]; [|discriminate].
  destruct (log_ratio _ _ _) as [mr|e]; [|discriminate].
  intros [= <- _]. exists half_pow. split; [reflexivity|].
  assert (Hq : Forall (fun x => is_bit x = true) (proposed half_pow rand q0))
    by now apply candidate_bits.
  split; [apply metrop_select_either|]. split; [exact Hq|]. split.
  { destruct (metrop_select_either u mr (proposed half_pow rand q0) q0)
      as [-> | ->]; assumption. }
  split.
  - unfold proposed, candidate. apply zip_with_length.
    now rewrite length_map, length_seq.
  - intros i x Hx Hr. unfold proposed, candidate.
    rewrite zip_with_nth_error, Hx.
    rewrite nth_error_map_seq by (apply nth_error_Some; congruence).
    now rewrite Hr.
Qed.

Lemma binary_states_stay_binary_witness :
  Forall (fun x => is_bit x = true) [0%float; 1%float] /\
  astep pow_unit [0%float; 1%float] flat_logp low_then_high 0.5%float
        binary_step
    = (Ok [1%float; 1%float], binary_step) /\
  exists half_pow,
    pow_unit 0.5%float (scaling binary_step) = Ok half_pow /\
    ([1%float; 1%float] = proposed half_pow low_then_high [0%float; 1%float]
     \/ [1%float; 1%float] = [0%float; 1%float]) /\
    Forall (fun x => is_bit x = true)
           (proposed half_pow low_then_high [0%float; 1%float]) /\
    Forall (fun x => is_bit x = true) [1%float; 1%float] /\
    List.length (proposed half_pow low_then_high [0%float; 1%float])
      = List.length [0%float; 1%float] /\
    forall i x,
      nth_error [0%float; 1%float] i = Some x ->
      (low_then_high i <? 1 - half_pow)%float = false ->
      nth_error (proposed half_pow low_then_high [0%float; 1%float]) i
        = Some x.
Proof.
  assert (Hb : Forall (fun x => is_bit x = true) [0%float; 1%float])
    by (repeat constructor).
  assert (H : astep pow_unit [0%float; 1%float] flat_logp low_then_high
                0.5%float binary_step
              = (Ok [1%float; 1%float], binary_step))
    by (vm_compute; reflexivity).
  split; [exact Hb|]. split; [exact H|].
  exact (binary_states_stay_binary _ _ _ _ _ _ _ _ Hb H).
Defined.

End BinaryProps.

(** * Further properties *)

(** ** The order of floats *)

Ltac sf_order :=
  unfold SFleb, SFltb, SFeqb, SFcompare;
  repeat match goal with
         | s : bool |- _ => destruct s
         end;
  rewrite ?Pos.compare_cont_spec; cbn [Pos.switch_Eq];
  repeat match goal with
         | |- context [Z.compare ?a ?b] =>
             destruct (Z.compare_spec a b); try lia
         | |- context [Pos.compare ?a ?b] =>
             destruct (Pos.compare_spec a b); try lia
         end;
  try discriminate; try reflexivity; try (intros; discriminate).

Lemma SFltb_leb_trans (a b c : spec_float) :
  SFltb a b = true -> SFleb b c = true -> SFltb a c = true.
Proof. destruct a, b, c; sf_order. Qed.

Lemma SFleb_ltb_trans (a b c : spec_float) :
  SFleb a b = true -> SFltb b c = true -> SFltb a c = true.
Proof. destruct a, b, c; sf_order. Qed.

Lemma SFltb_trans (a b c : spec_float) :
  SFltb a b = true -> SFltb b c = true -> SFltb a c = true.
Proof. destruct a, b, c; sf_order. Qed.

Lemma SFeqb_sym (a b : spec_float) : SFeqb a b = SFeqb b a.
Proof. destruct a, b; sf_order. Qed.

Lemma SFeqb_refl_l (a b : spec_float) :
  SFeqb a b = true -> SFeqb a a = true.
Proof. destruct a, b; sf_order. Qed.

Lemma leb_ltb_trans (a b c : float) :
  (a <=? b)%float = true -> (b <? c)%float = true -> (a <? c)%float = true.
Proof. rewrite !leb_spec, !ltb_spec. apply SFleb_ltb_trans. Qed.

Lemma ltb_leb_trans (a b c : float) :
  (a <? b)%float = true -> (b <=? c)%float = true -> (a <? c)%float = true.
Proof. rewrite !leb_spec, !ltb_spec. apply SFltb_leb_trans. Qed.

Lemma ltb_trans (a b c : float) :
  (a <? b)%float = true -> (b <? c)%float = true -> (a <? c)%float = true.
Proof. rewrite !ltb_spec. apply SFltb_trans. Qed.

Lemma eqb_sym (x y : float) : (x =? y)%float = (y =? x)%float.
Proof. rewrite !eqb_spec. apply SFeqb_sym. Qed.

Lemma leb_zero_not_ltb (x : float) :
  (0 <=? x)%float = true -> (x <? 0)%float = false.
Proof.
  intros H. destruct (x <? 0)%float eqn:E; [|reflexivity].
  apply ltb_zero_not_leb in E. congruence.
Qed.

(** ** More on the scale tuner *)

Lemma holds_below_mono (c r1 r2 : float) :
  (r1 <=? r2)%float = true ->
  holds (Below c) r2 = true -> holds (Below c) r1 = true.
Proof. cbn [holds]. apply leb_ltb_trans. Qed.

Lemma holds_above_mono (c r1 r2 : float) :
  (r1 <=? r2)%float = true ->
  holds (Above c) r1 = true -> holds (Above c) r2 = true.
Proof. cbn [holds]. intros H1 H2. exact (ltb_leb_trans _ _ _ H2 H1). Qed.

Lemma tune_multiplier (s r : float) :
  tune s r = match first_match tune_table r with
             | Some _ => (s * multiplier r)%float
             | None => s
             end.
Proof.
  rewrite tune_eq_table. unfold tune_by_table, multiplier.
  now destruct (first_match tune_table r).
Qed.

(** X2: the factor [tune] multiplies the scale by (1 when it leaves the
    scale alone) does not decrease when the acceptance rate increases: a
    higher rate never gets a smaller factor. *)
Theorem multiplier_monotone (r1 r2 : float) :
  (r1 <=? r2)%float = true ->
  (multiplier r1 <=? multiplier r2)%float = true /\
  (forall s, tune s r1 = match first_match tune_table r1 with
                         | Some _ => (s * multiplier r1)%float
                         | None => s
                         end).
Proof.
  intros Hle. split; [|intros s; apply tune_multiplier].
  pose proof (holds_below_mono 0.001 _ _ Hle) as I0.
  pose proof (holds_below_mono 0.05 _ _ Hle) as I1.
  pose proof (holds_below_mono 0.2 _ _ Hle) as I2.
  pose proof (holds_above_mono 0.95 _ _ Hle) as I3.
  pose proof (holds_above_mono 0.75 _ _ Hle) as I4.
  pose proof (holds_above_mono 0.5 _ _ Hle) as I5.
  unfold multiplier, tune_table, first_match.
  repeat match goal with
         | |- context [if ?b then _ else _] => destruct b eqn:?
         end;
  try reflexivity;
  repeat match goal with
         | I : true = true -> _ |- _ => specialize (I eq_refl)
         end;
  congruence.
Qed.

Lemma multiplier_monotone_witness :
  (0.1 <=? 0.9)%float = true /\
  (multiplier 0.1 <=? multiplier 0.9)%float = true.
Proof.
  assert (H : (0.1 <=? 0.9)%float = true) by reflexivity.
  split; [exact H|]. exact (proj1 (multiplier_monotone 0.1 0.9 H)).
Defined.

(** [r <? c] is false once [r] has a lower bound that is not below [c]. *)
Ltac not_below H :=
  match goal with
  | |- context [(?x <? ?c)%float] =>
      let E := fresh "E" in
      let F := fresh "F" in
      destruct (x <? c)%float eqn:E;
      [ exfalso;
        first [ pose proof (leb_ltb_trans _ _ _ H E) as F
              | pose proof (ltb_trans _ _ _ H E) as F ];
        vm_compute in F; discriminate F
      | ]
  end.

(** [c <? r] is false once [r] has an upper bound that is not above [c]. *)
Ltac not_above H :=
  match goal with
  | |- context [(?c <? ?x)%float] =>
      let E := fresh "E" in
      let F := fresh "F" in
      destruct (c <? x)%float eqn:E;
      [ exfalso;
        first [ pose proof (ltb_leb_trans _ _ _ E H) as F
              | pose proof (ltb_trans _ _ _ E H) as F ];
        vm_compute in F; discriminate F
      | ]
  end.

(** X1: the bands of [tune]: a rate below 0.001 multiplies the scale by 0.1,
    a rate in [0.001, 0.05) by 0.5, in [0.05, 0.2) by 0.9, in (0.5, 0.75]
    by 1.1, in (0.75, 0.95] by 2.0 and above 0.95 by 10.0. *)
Theorem tune_bands (s r : float) :
  ((r <? 0.001)%float = true -> tune s r = (s * 0.1)%float) /\
  ((0.001 <=? r)%float = true -> (r <? 0.05)%float = true ->
   tune s r = (s * 0.5)%float) /\
  ((0.05 <=? r)%float = true -> (r <? 0.2)%float = true ->
   tune s r = (s * 0.9)%float) /\
  ((0.5 <? r)%float = true -> (r <=? 0.75)%float = true ->
   tune s r = (s * 1.1)%float) /\
  ((0.75 <? r)%float = true -> (r <=? 0.95)%float = true ->
   tune s r = (s * 2.0)%float) /\
  ((0.95 <? r)%float = true -> tune s r = (s * 10.0)%float).
Proof.
  unfold tune. repeat split.
  - intros ->. reflexivity.
  - intros Hlo Hhi. not_below Hlo. now rewrite Hhi.
  - intros Hlo Hhi. do 2 not_below Hlo. now rewrite Hhi.
  - intros Hlo Hhi. do 3 not_below Hlo. do 2 not_above Hhi. now rewrite Hlo.
  - intros Hlo Hhi. do 3 not_below Hlo. not_above Hhi. now rewrite Hlo.
  - intros Hlo. do 3 not_below Hlo. now rewrite Hlo.
Qed.

Lemma tune_bands_witness :
  (0.75 <? 0.8)%float = true /\ (0.8 <=? 0.95)%float = true /\
  tune 3 0.8 = (3 * 2.0)%float.
Proof.
  split; [reflexivity|]. split; [reflexivity|].
  apply (proj1 (proj2 (proj2 (proj2 (proj2 (tune_bands 3 0.8))))));
    reflexivity.
Defined.

(** *** The sign of the scale *)

Lemma shr_1_nonneg (mrs : shr_record) :
  0 <= shr_m mrs -> 0 <= shr_m (shr_1 mrs).
Proof.
  destruct mrs as [m r s]. cbn [shr_m]. unfold shr_1.
  destruct m as [|[p|p|]|[p|p|]]; cbn [shr_m]; lia.
Qed.

Lemma iter_shr_1_nonneg (p : positive) (mrs : shr_record) :
  0 <= shr_m mrs -> 0 <= shr_m (SpecFloat.iter_pos shr_1 p mrs).
Proof.
  revert mrs. induction p as [p IH|p IH|]; intros mrs H;
    cbn [SpecFloat.iter_pos].
  - apply IH, IH, shr_1_nonneg, H.
  - apply IH, IH, H.
  - apply shr_1_nonneg, H.
Qed.

Lemma shr_fexp_nonneg (m e : Z) (l : location) :
  0 <= m -> 0 <= shr_m (fst (shr_fexp prec emax m e l)).
Proof.
  intros Hm. unfold shr_fexp, shr.
  assert (H0 : 0 <= shr_m (shr_record_of_loc m l))
    by (destruct l as [|[| |]]; exact Hm).
  destruct (fexp prec emax (Zdigits2 m + e) - e); cbn [fst];
    [exact H0 | now apply iter_shr_1_nonneg | exact H0].
Qed.

Lemma round_nearest_even_nonneg (m : Z) (l : location) :
  0 <= m -> 0 <= round_nearest_even m l.
Proof.
  intros Hm. unfold round_nearest_even.
  destruct l as [|[| |]]; try destruct (Z.even m); lia.
Qed.

(** Rounding a non-negative mantissa with a positive sign gives a zero, a
    positive number or plus infinity, never NaN. *)
Lemma binary_round_aux_nonneg (m e : Z) (l : location) :
  0 <= m ->
  SFleb (S754_zero false) (binary_round_aux prec emax false m e l) = true.
Proof.
  intros Hm. unfold binary_round_aux.
  pose proof (shr_fexp_nonneg m e l Hm) as H1.
  destruct (shr_fexp prec emax m e l) as [mrs1 e1]. cbn [fst] in H1.
  pose proof (shr_fexp_nonneg _ e1 loc_Exact
                (round_nearest_even_nonneg _ (loc_of_shr_record mrs1) H1))
    as H2.
  destruct (shr_fexp prec emax _ e1 loc_Exact) as [mrs2 e2]. cbn [fst] in H2.
  destruct (shr_m mrs2); [reflexivity | | lia].
  now destruct (e2 <=? emax - prec).
Qed.

Lemma mul_nonneg (x c : float) (mc : positive) (ec : Z) :
  Prim2SF c = S754_finite false mc ec ->
  (0 <=? x)%float = true -> (0 <=? x * c)%float = true.
Proof.
  intros Hc. rewrite !leb_spec, mul_spec, Hc.
  change (Prim2SF 0) with (S754_zero false).
  destruct (Prim2SF x) as [s|s| |s m e]; try destruct s; try discriminate;
    intros _; try reflexivity.
  unfold SF64mul, SFmul. cbn [xorb]. apply binary_round_aux_nonneg. lia.
Qed.

Lemma tune_nonneg (s r : float) :
  (0 <=? s)%float = true -> (0 <=? tune s r)%float = true.
Proof.
  intros Hs. unfold tune.
  repeat match goal with
         | |- context [if ?b then _ else _] => destruct b
         end;
  try exact Hs;
  eapply mul_nonneg; try exact Hs; vm_compute; reflexivity.
Qed.

Lemma tune_zero (r : float) : tune 0 r = 0%float.
Proof.
  unfold tune.
  repeat match goal with
         | |- context [if ?b then _ else _] => destruct b
         end; reflexivity.
Qed.

Lemma mul_zero_finite (d : float) :
  is_finite d = true -> exists s, Prim2SF (d * 0) = S754_zero s.
Proof.
  intros H. rewrite mul_spec. change (Prim2SF 0) with (S754_zero false).
  destruct (is_finite_Prim2SF d H) as [[s ->]|(s & m & e & ->)];
    cbn; eauto.
Qed.

Lemma add_zero_eqb (x z : float) (s : bool) :
  Prim2SF z = S754_zero s -> not_nan x = true -> (x + z =? x)%float = true.
Proof.
  unfold not_nan. intros Hz. rewrite !eqb_spec, add_spec, Hz.
  unfold SF64add, SFadd.
  destruct (Prim2SF x) as [sx|sx| |sx m e]; try discriminate; auto.
  destruct sx, s; auto.
Qed.

(** ** Broadcasting *)

Lemma length_one {A : Type} (l : list A) :
  List.length l = 1%nat -> exists x, l = [x].
Proof. destruct l as [|x [|y l]]; try discriminate. now exists x. Qed.

Lemma broadcast2_same_length {C : Type} (f : float -> float -> C)
    (a b : vec) :
  List.length a = List.length b -> broadcast2 f a b = Ok (zip_with f a b).
Proof. intros H. unfold broadcast2. now rewrite H, Nat.eqb_refl. Qed.

Lemma broadcast2_scalar_r {C : Type} (f : float -> float -> C) (a : vec)
    (y : float) :
  broadcast2 f a [y] = Ok (map (fun x => f x y) a).
Proof.
  unfold broadcast2. destruct a as [|x [|x' a]]; reflexivity.
Qed.

Lemma broadcast2_scalar_l {C : Type} (f : float -> float -> C) (x : float)
    (b : vec) :
  broadcast2 f [x] b = Ok (map (f x) b).
Proof.
  unfold broadcast2. destruct b as [|y [|y' b]]; reflexivity.
Qed.

Lemma broadcast2_shape {C : Type} (f : float -> float -> C) (a b : vec)
    (l : list C) :
  broadcast2 f a b = Ok l ->
  (List.length a = List.length b /\ List.length l = List.length a) \/
  (List.length a = 1%nat /\ List.length l = List.length b) \/
  (List.length b = 1%nat /\ List.length l = List.length a).
Proof.
  unfold broadcast2.
  destruct (List.length a =? List.length b)%nat eqn:E.
  - apply Nat.eqb_eq in E. intros [= <-]. left. split; [exact E|].
    rewrite zip_with_length by exact E. now symmetry.
  - destruct a as [|x [|x' a]].
    + destruct b as [|y [|y' b]]; try discriminate.
      intros [= <-]. right; right. now split.
    + intros [= <-]. right; left. split; [reflexivity|apply length_map].
    + destruct b as [|y [|y' b]]; try discriminate.
      intros [= <-]. right; right. split; [reflexivity|].
      cbn [List.length map]. now rewrite length_map.
Qed.

Lemma broadcast2_mismatch {C : Type} (f : float -> float -> C) (a b : vec) :
  List.length a <> List.length b -> List.length a <> 1%nat ->
  List.length b <> 1%nat ->
  broadcast2 f a b
  = Raise (ValueError "operands could not be broadcast together").
Proof.
  intros Hab Ha Hb. unfold broadcast2.
  destruct (Nat.eqb_spec (List.length a) (List.length b)); [contradiction|].
  destruct a as [|x [|x' a]]; destruct b as [|y [|y' b]]; cbn in *;
    try reflexivity; contradiction.
Qed.

(** ** More on the general step *)

Module MetropolisMore.

Import Metropolis MetropolisProps.

(** *** What a call leaves behind *)

Lemma tuning_outcome (self : t) :
  (fst (tuning self) = Ok tt /\ due self = false /\
   snd (tuning self) = self) \/
  (exists rate, fst (tuning self) = Ok tt /\ due self = true /\
                acceptance_rate self = Ok rate /\
                snd (tuning self) = retuned self rate) \/
  (exists e, fst (tuning self) = Raise e /\ due self = true /\
             acceptance_rate self = Raise e /\ snd (tuning self) = self).
Proof.
  rewrite tuning_eq. destruct (due self); [|now left].
  destruct (acceptance_rate self) as [rate|e].
  - right; left. now exists rate.
  - right; right. now exists e.
Qed.

Lemma step_raise_state (self : t) (c : call) (e : exn) :
  fst (step self c) = Raise e -> snd (step self c) = snd (tuning self).
Proof.
  unfold step. rewrite astep_eq.
  destruct (tuning self) as [[[]|e0] s1]; cbn [snd]; [|reflexivity].
  destruct (candidate s1 _ _) as [q|e1]; [|reflexivity].
  destruct (log_ratio _ q _) as [mr|e1]; [|reflexivity].
  destruct (counts_as_accepted _ _ q) as [hit|e1];
    [discriminate|reflexivity].
Qed.

Lemma step_ok_state (self : t) (c : call) (q_new : vec) :
  fst (step self c) = Ok q_new ->
  exists hit,
    snd (step self c) = counted hit (snd (tuning self)) /\
    ((due self = false /\ snd (tuning self) = self) \/
     (due self = true /\ exists rate, acceptance_rate self = Ok rate /\
                                      snd (tuning self) = retuned self rate)).
Proof.
  unfold step. rewrite astep_eq.
  destruct (tuning_outcome self)
    as [(Hf & Hd & Hs)|[(rate & Hf & Hd & Hr & Hs)|(e0 & Hf & _ & _ & Hs)]];
    destruct (tuning self) as [[[]|e1] s1]; cbn [fst snd] in *;
    try discriminate; subst s1.
  - destruct (candidate self _ _) as [q|e1]; [|discriminate].
    destruct (log_ratio _ q _) as [mr|e1]; [|discriminate].
    destruct (counts_as_accepted _ _ q) as [hit|e1]; [|discriminate].
    intros _. exists hit. split; [reflexivity|]. now left.
  - destruct (candidate _ _ _) as [q|e1]; [|discriminate].
    destruct (log_ratio _ q _) as [mr|e1]; [|discriminate].
    destruct (counts_as_accepted _ _ q) as [hit|e1]; [|discriminate].
    intros _. exists hit. split; [reflexivity|]. right.
    split; [exact Hd|]. now exists rate.
Qed.

(** X6: a call of [astep] that raises has not counted an acceptance and has
    not moved the countdown: it leaves the object as it found it, or, when
    it was entered on a tuning event and raised after it, with the scaling
    tuned, the countdown reset and the counter at zero. *)
Theorem raising_call_never_counts (self : t) (c : call) (e : exn) :
  fst (step self c) = Raise e ->
  snd (step self c) = self \/
  (due self = true /\
   exists rate, acceptance_rate self = Ok rate /\
                snd (step self c) = retuned self rate).
Proof.
  intros H. rewrite (step_raise_state _ _ _ H).
  destruct (tuning_outcome self)
    as [(_ & _ & ->)|[(rate & _ & Hd & Hr & ->)|(e0 & _ & _ & _ & ->)]];
    [now left | right | now left].
  split; [exact Hd|]. now exists rate.
Qed.

Lemma raising_call_never_counts_witness :
  fst (step default_step misfit_call)
    = Raise (ValueError "operands could not be broadcast together") /\
  (snd (step default_step misfit_call) = default_step \/
   (due default_step = true /\
    exists rate, acceptance_rate default_step = Ok rate /\
                 snd (step default_step misfit_call)
                 = retuned default_step rate)).
Proof.
  assert (H : fst (step default_step misfit_call)
              = Raise (ValueError "operands could not be broadcast together"))
    by (vm_compute; reflexivity).
  split; [exact H|].
  exact (raising_call_never_counts default_step misfit_call _ H).
Defined.

(** *** The countdown *)

Lemma step_on_schedule (self : t) (c : call) (n : Z) (q_new : vec) :
  tune self = true -> 0 < tune_interval self -> 0 <= n ->
  on_schedule self n -> fst (step self c) = Ok q_new ->
  on_schedule (snd (step self c)) (n + 1).
Proof.
  unfold on_schedule. intros Ht Hti Hn (Hr & Hlt & Hmod) Hok.
  destruct (step_ok_state _ _ _ Hok)
    as (hit & -> & [(Hd & ->)|(Hd & rate & _ & ->)]).
  - unfold due in Hd. rewrite Ht in Hd. cbn in Hd. apply Z.eqb_neq in Hd.
    destruct hit; fields;
      (split; [lia|]; split; [lia|];
       replace (steps_until_tune self - 1 + (n + 1))
         with (steps_until_tune self + n) by lia; exact Hmod).
  - unfold due in Hd. rewrite Ht in Hd. cbn in Hd. apply Z.eqb_eq in Hd.
    rewrite Hd in Hmod. cbn in Hmod.
    destruct hit; fields;
      (split; [lia|]; split; [lia|];
       replace (tune_interval self - 1 + (n + 1))
         with (n + 1 * tune_interval self) by lia;
       rewrite Z.mod_add by lia; exact Hmod).
Qed.

Lemma run_on_schedule (self : t) (calls : list call) (n : Z) :
  tune self = true -> 0 < tune_interval self -> 0 <= n ->
  on_schedule self n -> all_return self calls ->
  on_schedule (run self calls) (n + Z.of_nat (List.length calls)).
Proof.
  revert self n.
  induction calls as [|c calls IH]; intros self n Ht Hti Hn Hs Hall.
  - cbn. now rewrite Z.add_0_r.
  - destruct Hall as [[q Hq] Hall]. rewrite run_cons.
    destruct (step_frame self c) as (Ht' & Hti' & _).
    replace (n + Z.of_nat (List.length (c :: calls)))
      with ((n + 1) + Z.of_nat (List.length calls))
      by (cbn [List.length]; lia).
    apply IH.
    + congruence.
    + rewrite Hti'. exact Hti.
    + lia.
    + eapply step_on_schedule; eassumption.
    + exact Hall.
Qed.

(** X5: on a freshly constructed step with tuning enabled and a positive
    tune interval, after any non-empty sequence of calls that all return,
    the countdown lies in [0, tune_interval) and, added to the number of
    calls made, is a multiple of the tune interval; so the next call opens
    with a tuning event exactly when the number of calls made is a multiple
    of the tune interval: the first tuning event opens call number
    [tune_interval + 1]. *)
Theorem tuning_cadence (self : t) (calls : list call) :
  tune self = true -> 0 < tune_interval self ->
  steps_until_tune self = tune_interval self ->
  all_return self calls -> calls <> [] ->
  0 <= steps_until_tune (run self calls) < tune_interval self /\
  (steps_until_tune (run self calls) + Z.of_nat (List.length calls))
    mod tune_interval self = 0 /\
  (due (run self calls) = true <->
   Z.of_nat (List.length calls) mod tune_interval self = 0).
Proof.
  intros Ht Hti Hfresh Hall Hne.
  assert (H0 : on_schedule self 0).
  { unfold on_schedule. rewrite Hfresh, Z.add_0_r, Z.mod_same by lia.
    repeat split; lia. }
  pose proof (run_on_schedule self calls 0 Ht Hti ltac:(lia) H0 Hall) as H.
  destruct (run_frame self calls) as [Ht' Hti'].
  unfold on_schedule in H. rewrite Hti' in H. cbn [Z.add] in H.
  set (n := Z.of_nat (List.length calls)) in *.
  assert (Hn : 0 < n) by (unfold n; destruct calls; [congruence | cbn; lia]).
  destruct H as (Hr & Hlt & Hmod). specialize (Hlt Hn).
  split; [lia|]. split; [exact Hmod|].
  unfold due. rewrite Ht', Ht. cbn [andb]. rewrite Z.eqb_eq.
  split.
  - intros Hz. now rewrite Hz in Hmod.
  - intros Hz.
    rewrite <- Z.add_mod_idemp_r, Hz, Z.add_0_r in Hmod by lia.
    rewrite Z.mod_small in Hmod by lia. exact Hmod.
Qed.

Lemma tuning_cadence_witness :
  tune paced_step = true /\ 0 < tune_interval paced_step /\
  steps_until_tune paced_step = tune_interval paced_step /\
  all_return paced_step [unit_call; unit_call; unit_call] /\
  [unit_call; unit_call; unit_call] <> [] /\
  0 <= steps_until_tune (run paced_step [unit_call; unit_call; unit_call])
    < tune_interval paced_step /\
  (steps_until_tune (run paced_step [unit_call; unit_call; unit_call])
   + Z.of_nat (List.length [unit_call; unit_call; unit_call]))
    mod tune_interval paced_step = 0 /\
  (due (run paced_step [unit_call; unit_call; unit_call]) = true <->
   Z.of_nat (List.length [unit_call; unit_call; unit_call])
     mod tune_interval paced_step = 0).
Proof.
  assert (H1 : tune paced_step = true) by reflexivity.
  assert (H2 : 0 < tune_interval paced_step) by reflexivity.
  assert (H3 : steps_until_tune paced_step = tune_interval paced_step)
    by reflexivity.
  assert (H4 : all_return paced_step [unit_call; unit_call; unit_call]).
  { cbn [all_return]. repeat split; eexists; vm_compute; reflexivity. }
  assert (H5 : [unit_call; unit_call; unit_call] <> []) by discriminate.
  split; [exact H1|]. split; [exact H2|]. split; [exact H3|].
  split; [exact H4|]. split; [exact H5|].
  exact (tuning_cadence paced_step _ H1 H2 H3 H4 H5).
Defined.

(** *** The scaling over a run *)

(** X3: a scaling that is zero or positive (or plus infinity) stays so: no
    sequence of calls, whatever their outcomes and the rates the tuning
    events see, makes the scaling negative or NaN. *)
Theorem scaling_stays_nonneg (self : t) (calls : list call) :
  (0 <=? scaling self)%float = true ->
  (0 <=? scaling (run self calls))%float = true.
Proof.
  revert self. induction calls as [|c calls IH]; intros self H; [exact H|].
  rewrite run_cons. apply IH.
  destruct (step_scaling self c) as [-> | (_ & rate & _ & ->)];
    [exact H | now apply tune_nonneg].
Qed.

Lemma scaling_stays_nonneg_witness :
  (0 <=? scaling eager_step)%float = true /\
  (0 <=? scaling (run eager_step [still_call; still_call; still_call]))%float
  = true.
Proof.
  assert (H : (0 <=? scaling eager_step)%float = true) by reflexivity.
  split; [exact H|].
  exact (scaling_stays_nonneg eager_step
           [still_call; still_call; still_call] H).
Defined.

(** X4: a scaling of zero is final: [tune] maps a zero scale to zero at
    every rate, so after any sequence of calls the scaling is still zero. *)
Theorem zero_scaling_is_absorbing (self : t) (calls : list call) :
  scaling self = 0%float -> scaling (run self calls) = 0%float.
Proof.
  revert self. induction calls as [|c calls IH]; intros self H; [exact H|].
  rewrite run_cons. apply IH.
  destruct (step_scaling self c) as [-> | (_ & rate & _ & ->)];
    [exact H | rewrite H; apply tune_zero].
Qed.

Lemma zero_scaling_is_absorbing_witness :
  scaling frozen_step = 0%float /\
  scaling (run frozen_step [unit_call; unit_call; unit_call]) = 0%float.
Proof.
  assert (H : scaling frozen_step = 0%float) by reflexivity.
  split; [exact H|].
  exact (zero_scaling_is_absorbing frozen_step
           [unit_call; unit_call; unit_call] H).
Defined.

(** *** Degenerate tune intervals *)

Lemma zero_interval_step (self : t) (c : call) :
  tune self = true -> tune_interval self = 0 ->
  steps_until_tune self = 0 -> accepted self = 0 ->
  step self c = (Raise ZeroDivisionError, self).
Proof.
  intros Ht Hti Hs Ha. unfold step. rewrite astep_eq, tuning_eq.
  unfold due, acceptance_rate. rewrite Ht, Hs, Hti, Ha. reflexivity.
Qed.

(** X12: a step constructed with [tune_interval=0] and tuning left enabled
    raises [ZeroDivisionError] on every call of [astep], the first one
    included, and no call changes the object. *)
Theorem zero_interval_always_raises {Model : Type}
    (discrete_types : list string) (context : option Model)
    (vars : list var) (S_arg : option vec)
    (proposal_dist_arg : option proposal_family) (scaling_arg : option float)
    (model : option Model) (self : t) (calls : list call) (c : call) :
  init discrete_types context vars S_arg proposal_dist_arg scaling_arg
       None (Some 0) model = Ok self ->
  run self calls = self /\
  step (run self calls) c = (Raise ZeroDivisionError, self).
Proof.
  intros Hinit.
  assert (H : tune self = true /\ tune_interval self = 0 /\
              steps_until_tune self = 0 /\ accepted self = 0).
  { unfold init in Hinit. destruct (modelcontext context model);
      [|discriminate]. cbn [bind] in Hinit. injection Hinit as <-.
    repeat split. }
  destruct H as (Ht & Hti & Hs & Ha).
  assert (Hrun : run self calls = self).
  { induction calls as [|k calls IH]; [reflexivity|].
    rewrite run_cons, (zero_interval_step self k Ht Hti Hs Ha). exact IH. }
  split; [exact Hrun|]. rewrite Hrun. now apply zero_interval_step.
Qed.

Lemma zero_interval_always_raises_witness :
  init (Model := unit) ["int64"%string] (Some tt) [float_var] None None None
       None (Some 0) None = Ok stalled_step /\
  run stalled_step [still_call; unit_call] = stalled_step /\
  step (run stalled_step [still_call; unit_call]) still_call
    = (Raise ZeroDivisionError, stalled_step).
Proof.
  assert (H : init (Model := unit) ["int64"%string] (Some tt) [float_var]
                None None None None (Some 0) None = Ok stalled_step)
    by reflexivity.
  split; [exact H|].
  exact (zero_interval_always_raises _ _ _ _ _ _ _ _
           [still_call; unit_call] still_call H).
Defined.

Lemma negative_countdown_step (self : t) (c : call) :
  steps_until_tune self < 0 ->
  steps_until_tune (snd (step self c)) < 0 /\
  scaling (snd (step self c)) = scaling self.
Proof.
  intros Hs.
  assert (Hd : due self = false).
  { unfold due. destruct (Z.eqb_spec (steps_until_tune self) 0); [lia|].
    apply andb_false_r. }
  destruct (step_cases self c)
    as [->|[[_ [hit ->]]|[Hd' _]]]; [now split| |congruence].
  destruct hit; fields; split; try lia; reflexivity.
Qed.

(** X13: a countdown below zero, as a negative [tune_interval] gives a
    freshly constructed step, never comes back to zero: no call opens with a
    tuning event and the scaling keeps its value over every sequence of
    calls, although tuning is enabled. *)
Theorem negative_interval_disables_tuning (self : t) (calls : list call) :
  steps_until_tune self < 0 ->
  due (run self calls) = false /\
  scaling (run self calls) = scaling self.
Proof.
  revert self. induction calls as [|c calls IH]; intros self Hs.
  - split; [|reflexivity]. unfold due. cbn [run fold_left].
    destruct (Z.eqb_spec (steps_until_tune self) 0); [lia|].
    apply andb_false_r.
  - rewrite run_cons.
    destruct (negative_countdown_step self c Hs) as [Hs' Hsc].
    destruct (IH _ Hs') as [Hd ->]. split; [exact Hd | exact Hsc].
Qed.

Lemma negative_interval_disables_tuning_witness :
  steps_until_tune backward_step < 0 /\
  due (run backward_step [still_call; still_call]) = false /\
  scaling (run backward_step [still_call; still_call])
    = scaling backward_step.
Proof.
  assert (H : steps_until_tune backward_step < 0) by reflexivity.
  split; [exact H|].
  exact (negative_interval_disables_tuning backward_step
           [still_call; still_call] H).
Defined.

(** *** Shapes and outcomes *)

Lemma round_masked_length (mask : list bool) (q r : vec) :
  round_masked mask q = Ok r -> List.length r = List.length q.
Proof.
  unfold round_masked.
  destruct (Nat.eqb_spec (List.length mask) (List.length q)); [|discriminate].
  intros [= <-]. now apply zip_with_length.
Qed.

(** The candidate has the shape of the state, unless the state has one
    element, which a longer deviate stretches. *)
Lemma candidate_shape (self : t) (q0 dev q : vec) :
  candidate self q0 dev = Ok q ->
  List.length q = List.length q0 \/
  (List.length q0 = 1%nat /\ List.length q = List.length dev).
Proof.
  unfold candidate, np_add.
  destruct (broadcast2 _ q0 _) as [raw|e] eqn:Hb; [|discriminate].
  cbn [bind]. intros Hq.
  assert (Hlen : List.length q = List.length raw).
  { destruct (any (discrete self));
      [now apply round_masked_length in Hq | now injection Hq as <-]. }
  rewrite Hlen.
  destruct (broadcast2_shape _ _ _ _ Hb) as [[_ H]|[[H1 H]|[_ H]]];
    rewrite ?length_map in H; auto.
Qed.

Lemma counts_never_raises (q_new q0 q : vec) :
  List.length q = List.length q0 \/ List.length q0 = 1%nat ->
  q_new = q \/ q_new = q0 ->
  exists hit, counts_as_accepted q_new q0 q = Ok hit.
Proof.
  intros Hshape Hnew. unfold counts_as_accepted, np_ne, np_eq.
  assert (Hne : exists l,
             broadcast2 (fun x y => negb (x =? y)%float) q_new q0 = Ok l).
  { destruct Hnew as [-> | ->].
    - destruct Hshape as [H|H].
      + rewrite broadcast2_same_length by exact H. eauto.
      + destruct (length_one _ H) as [y ->].
        rewrite broadcast2_scalar_r. eauto.
    - rewrite broadcast2_same_length by reflexivity. eauto. }
  assert (Heq : exists l,
             broadcast2 (fun x y => (x =? y)%float) q0 q = Ok l).
  { destruct Hshape as [H|H].
    - rewrite broadcast2_same_length by (now symmetry). eauto.
    - destruct (length_one _ H) as [y ->].
      rewrite broadcast2_scalar_l. eauto. }
  destruct Hne as [l ->], Heq as [l' ->]. cbn [bind].
  destruct (any l); eauto.
Qed.

(** X7: [astep] returns what [metrop_select] chooses whenever the tuning
    phase, the candidate and the two evaluations of [logp] succeed, and
    raises the exception of the first of them that fails, the candidate's
    [logp] before the current state's: the test of line 96 never raises. *)
Theorem astep_outcome (self : t) (c : call) :
  fst (step self c) =
  match fst (tuning self) with
  | Raise e => Raise e
  | Ok _ =>
      match candidate (snd (tuning self)) (q0_of c) (dev_of c) with
      | Raise e => Raise e
      | Ok q =>
          match logp_of c q with
          | Raise e => Raise e
          | Ok lq =>
              match logp_of c (q0_of c) with
              | Raise e => Raise e
              | Ok lq0 =>
                  Ok (metrop_select (u_of c) (lq - lq0)%float q (q0_of c))
              end
          end
      end
  end.
Proof.
  unfold step. rewrite astep_eq.
  destruct (tuning self) as [[[]|e] s1]; cbn [fst snd]; [|reflexivity].
  destruct (candidate s1 _ _) as [q|e] eqn:Hc; [|reflexivity].
  unfold log_ratio.
  destruct (logp_of c q) as [lq|e]; [|reflexivity].
  destruct (logp_of c (q0_of c)) as [lq0|e]; [|reflexivity].
  cbn [bind].
  destruct (counts_never_raises
              (metrop_select (u_of c) (lq - lq0) q (q0_of c)) (q0_of c) q)
    as [hit ->]; [| |reflexivity].
  - destruct (candidate_shape _ _ _ _ Hc) as [H|[H _]]; auto.
  - apply metrop_select_either.
Qed.

(** Shapes that fit: a deviate of the length of the state, or of length one,
    and a mask that is all false or of the length of the state. *)
Lemma candidate_on_fitting_shapes (self : t) (q0 dev : vec) :
  List.length dev = List.length q0 \/ List.length dev = 1%nat ->
  (any (discrete self) = true ->
   List.length (discrete self) = List.length q0) ->
  exists q, candidate self q0 dev = Ok q /\
            List.length q = List.length q0.
Proof.
  intros Hdev Hmask. unfold candidate, np_add.
  set (delta := map (fun d => (d * scaling self)%float) dev).
  assert (Hd : List.length delta = List.length dev) by apply length_map.
  assert (Hraw : exists raw, broadcast2 PrimFloat.add q0 delta = Ok raw /\
                             List.length raw = List.length q0).
  { destruct Hdev as [H|H].
    - rewrite broadcast2_same_length by congruence.
      eexists. split; [reflexivity|].
      rewrite zip_with_length by congruence. congruence.
    - rewrite <- Hd in H. destruct (length_one _ H) as [y ->].
      rewrite broadcast2_scalar_r. eexists. split; [reflexivity|].
      apply length_map. }
  destruct Hraw as (raw & -> & Hlen). cbn [bind].
  destruct (any (discrete self)) eqn:Hany.
  - unfold round_masked. rewrite (Hmask eq_refl), Hlen, Nat.eqb_refl.
    eexists. split; [reflexivity|].
    rewrite zip_with_length by (rewrite (Hmask eq_refl); congruence).
    exact Hlen.
  - exists raw. now split.
Qed.

(** X8: a step as the constructor returns it, with tuning disabled or a
    non-zero tune interval, called with a state of one element per variable,
    a deviate of that length or of length one and a log-probability callable
    that returns, returns a state of one element per variable: neither the
    sum, nor the mask, nor the test of line 96 raises. *)
Theorem constructed_step_returns {Model : Type}
    (discrete_types : list string) (context : option Model)
    (vars : list var) (S_arg : option vec)
    (proposal_dist_arg : option proposal_family) (scaling_arg : option float)
    (tune_arg : option bool) (tune_interval_arg : option Z)
    (model : option Model) (self : t) (c : call) :
  init discrete_types context vars S_arg proposal_dist_arg scaling_arg
       tune_arg tune_interval_arg model = Ok self ->
  tune self = false \/ tune_interval self <> 0 ->
  List.length (q0_of c) = List.length vars ->
  List.length (dev_of c) = List.length vars \/
  List.length (dev_of c) = 1%nat ->
  (forall v, exists x, logp_of c v = Ok x) ->
  exists q_new, fst (step self c) = Ok q_new /\
                List.length q_new = List.length vars.
Proof.
  intros Hinit Hdue Hq0 Hdev Hlogp.
  destruct (MetropolisInit.init_fields _ _ _ _ _ _ _ _ _ _ Hinit)
    as (_ & _ & Hsteps & _ & Hmask).
  assert (Hd : due self = false).
  { unfold due. destruct Hdue as [-> | Hti]; [reflexivity|].
    rewrite Hsteps. apply Z.eqb_neq in Hti. rewrite Hti. apply andb_false_r. }
  destruct (candidate_on_fitting_shapes self (q0_of c) (dev_of c))
    as (q & Hc & Hlen).
  { rewrite Hq0. exact Hdev. }
  { intros _. now rewrite Hmask, length_map. }
  unfold step. rewrite astep_eq, tuning_eq, Hd, Hc.
  unfold log_ratio.
  destruct (Hlogp q) as [lq ->], (Hlogp (q0_of c)) as [lq0 ->]. cbn [bind].
  destruct (counts_never_raises
              (metrop_select (u_of c) (lq - lq0) q (q0_of c)) (q0_of c) q)
    as [hit ->]; [now left | apply metrop_select_either |].
  cbn [fst]. eexists. split; [reflexivity|].
  destruct (metrop_select_either (u_of c) (lq - lq0) q (q0_of c))
    as [-> | ->]; congruence.
Qed.

Lemma constructed_step_returns_witness :
  init (Model := unit) ["int64"%string] (Some tt) [int_var] None None None
       None None None = Ok discrete_step /\
  (tune discrete_step = false \/ tune_interval discrete_step <> 0) /\
  List.length (q0_of unit_call) = List.length [int_var] /\
  (List.length (dev_of unit_call) = List.length [int_var] \/
   List.length (dev_of unit_call) = 1%nat) /\
  (forall v, exists x, logp_of unit_call v = Ok x) /\
  exists q_new, fst (step discrete_step unit_call) = Ok q_new /\
                List.length q_new = List.length [int_var].
Proof.
  assert (H1 : init (Model := unit) ["int64"%string] (Some tt) [int_var]
                 None None None None None None = Ok discrete_step)
    by reflexivity.
  assert (H2 : tune discrete_step = false \/ tune_interval discrete_step <> 0)
    by (right; discriminate).
  assert (H3 : List.length (q0_of unit_call) = List.length [int_var])
    by reflexivity.
  assert (H4 : List.length (dev_of unit_call) = List.length [int_var] \/
               List.length (dev_of unit_call) = 1%nat) by (now left).
  assert (H5 : forall v, exists x, logp_of unit_call v = Ok x)
    by (intros v; now exists 0%float).
  split; [exact H1|]. split; [exact H2|]. split; [exact H3|].
  split; [exact H4|]. split; [exact H5|].
  exact (constructed_step_returns _ _ _ _ _ _ _ _ _ _ unit_call
           H1 H2 H3 H4 H5).
Defined.

(** X9: a call that opens without a tuning event and whose deviate has
    neither the length of the state nor length one, for a state of more or
    less than one element, raises the [ValueError] of the sum of line 90
    and leaves the object as it found it. *)
Theorem misfit_shapes_raise (self : t) (c : call) :
  due self = false ->
  List.length (dev_of c) <> List.length (q0_of c) ->
  List.length (dev_of c) <> 1%nat -> List.length (q0_of c) <> 1%nat ->
  step self c
  = (Raise (ValueError "operands could not be broadcast together"), self).
Proof.
  intros Hd H1 H2 H3. unfold step. rewrite astep_eq, tuning_eq, Hd.
  unfold candidate, np_add.
  rewrite broadcast2_mismatch; rewrite ?length_map; auto.
Qed.

Lemma misfit_shapes_raise_witness :
  due default_step = false /\
  List.length (dev_of misfit_call) <> List.length (q0_of misfit_call) /\
  List.length (dev_of misfit_call) <> 1%nat /\
  List.length (q0_of misfit_call) <> 1%nat /\
  step default_step misfit_call
  = (Raise (ValueError "operands could not be broadcast together"),
     default_step).
Proof.
  assert (H1 : due default_step = false) by reflexivity.
  assert (H2 : List.length (dev_of misfit_call)
               <> List.length (q0_of misfit_call)) by discriminate.
  assert (H3 : List.length (dev_of misfit_call) <> 1%nat) by discriminate.
  assert (H4 : List.length (q0_of misfit_call) <> 1%nat) by discriminate.
  split; [exact H1|]. split; [exact H2|]. split; [exact H3|].
  split; [exact H4|].
  exact (misfit_shapes_raise default_step misfit_call H1 H2 H3 H4).
Defined.

(** X10: with a deviate of the length of the state, or of length one, the
    state a call returns has the length of the state it was called with. *)
Theorem astep_keeps_shape (self : t) (c : call) (q_new : vec) :
  List.length (dev_of c) = List.length (q0_of c) \/
  List.length (dev_of c) = 1%nat ->
  fst (step self c) = Ok q_new ->
  List.length q_new = List.length (q0_of c).
Proof.
  intros Hdev Hok.
  destruct (step self c) as [r s'] eqn:Hstep. cbn [fst] in Hok. subst r.
  destruct (step_returns _ _ _ _ Hstep) as [-> | Hc]; [reflexivity|].
  destruct (candidate_shape _ _ _ _ Hc) as [H|[H1 H]]; [exact H|].
  rewrite H. destruct Hdev as [Hd|Hd]; congruence.
Qed.

Lemma astep_keeps_shape_witness :
  (List.length (dev_of unit_call) = List.length (q0_of unit_call) \/
   List.length (dev_of unit_call) = 1%nat) /\
  fst (step default_step unit_call) = Ok [1%float] /\
  List.length [1%float] = List.length (q0_of unit_call).
Proof.
  assert (H1 : List.length (dev_of unit_call) = List.length (q0_of unit_call)
               \/ List.length (dev_of unit_call) = 1%nat) by (now left).
  assert (H2 : fst (step default_step unit_call) = Ok [1%float])
    by (vm_compute; reflexivity).
  split; [exact H1|]. split; [exact H2|].
  exact (astep_keeps_shape default_step unit_call [1%float] H1 H2).
Defined.

(** *** Accepted proposals are counted *)

Lemma zip_ne_eq (a b : vec) :
  any (zip_with (fun x y => negb (x =? y)%float) a b) = false ->
  all (zip_with (fun x y => (x =? y)%float) b a) = true.
Proof.
  unfold any, all. revert b.
  induction a as [|x a IH]; intros [|y b]; cbn; auto.
  intros [Hx Hrest]%orb_false_iff. apply negb_false_iff in Hx.
  rewrite eqb_sym, Hx. cbn. now apply IH.
Qed.

Lemma map_ne_eq (x : float) (l : vec) :
  any (map (fun y => negb (y =? x)%float) l) = false ->
  all (map (fun y => (x =? y)%float) l) = true.
Proof.
  unfold any, all. induction l as [|y l IH]; cbn; auto.
  intros [Hy Hrest]%orb_false_iff. apply negb_false_iff in Hy.
  rewrite eqb_sym, Hy. cbn. now apply IH.
Qed.

Lemma candidate_counts (q0 q : vec) (hit : bool) :
  List.length q = List.length q0 \/ List.length q0 = 1%nat ->
  counts_as_accepted q q0 q = Ok hit -> hit = true.
Proof.
  intros Hshape. unfold counts_as_accepted, np_ne, np_eq.
  destruct Hshape as [H|H].
  - rewrite !broadcast2_same_length by congruence. cbn [bind].
    destruct (any _) eqn:Hany; intros [= <-]; [reflexivity|].
    now apply zip_ne_eq.
  - destruct (length_one _ H) as [y ->].
    rewrite broadcast2_scalar_r, broadcast2_scalar_l. cbn [bind].
    destruct (any _) eqn:Hany; intros [= <-]; [reflexivity|].
    now apply map_ne_eq.
Qed.

(** X11: no acceptance goes uncounted: when the state a call returns is its
    candidate, the counter ends the call one above its value after the
    tuning phase, whatever the shapes and also when the candidate holds a
    NaN. *)
Theorem accepted_proposal_is_counted (self : t) (c : call) (q_new : vec)
    (self' : t) :
  step self c = (Ok q_new, self') ->
  candidate (snd (tuning self)) (q0_of c) (dev_of c) = Ok q_new ->
  accepted self' = accepted (snd (tuning self)) + 1.
Proof.
  unfold step. rewrite astep_eq.
  destruct (tuning self) as [[[]|e] s1]; [|discriminate]. cbn [snd].
  destruct (candidate s1 _ _) as [q|e] eqn:Hc; [|discriminate].
  destruct (log_ratio _ q _) as [mr|e]; [|discriminate].
  destruct (counts_as_accepted _ _ q) as [hit|e] eqn:Hh; [|discriminate].
  intros [= Hq <-] [= ->]. rewrite Hq in Hh.
  rewrite (candidate_counts (q0_of c) q_new hit) ; [fields; lia| |exact Hh].
  destruct (candidate_shape _ _ _ _ Hc) as [H|[H _]]; auto.
Qed.

Lemma accepted_proposal_is_counted_witness :
  step default_step unit_call
    = (Ok [1%float], snd (step default_step unit_call)) /\
  candidate (snd (tuning default_step)) (q0_of unit_call) (dev_of unit_call)
    = Ok [1%float] /\
  accepted (snd (step default_step unit_call))
    = accepted (snd (tuning default_step)) + 1.
Proof.
  assert (H1 : step default_step unit_call
               = (Ok [1%float], snd (step default_step unit_call)))
    by (vm_compute; reflexivity).
  assert (H2 : candidate (snd (tuning default_step)) (q0_of unit_call)
                 (dev_of unit_call) = Ok [1%float])
    by (vm_compute; reflexivity).
  split; [exact H1|]. split; [exact H2|].
  exact (accepted_proposal_is_counted default_step unit_call [1%float] _
           H1 H2).
Defined.

(** *** A scaling of zero *)

Lemma tuning_keeps_zero (self : t) :
  scaling self = 0%float -> scaling (snd (tuning self)) = 0%float.
Proof.
  intros H. destruct (tuning_outcome self)
    as [(_ & _ & ->)|[(rate & _ & _ & _ & ->)|(e0 & _ & _ & _ & ->)]];
    try exact H.
  unfold retuned. fields. rewrite H. apply tune_zero.
Qed.

Lemma frozen_candidate (self : t) (q0 dev q : vec) :
  scaling self = 0%float -> any (discrete self) = false ->
  List.length dev = List.length q0 ->
  Forall (fun d => is_finite d = true) dev ->
  Forall (fun x => not_nan x = true) q0 ->
  candidate self q0 dev = Ok q ->
  List.length q = List.length q0 /\ coincide q q0.
Proof.
  intros Hs Hany Hlen Hdev Hq0. unfold candidate, np_add.
  rewrite broadcast2_same_length by (rewrite length_map; congruence).
  cbn [bind]. rewrite Hany. intros [= <-]. split.
  - rewrite zip_with_length by (rewrite length_map; congruence).
    now rewrite length_map.
  - intros i y x Hy Hx. rewrite zip_with_nth_error, Hx, nth_error_map in Hy.
    destruct (nth_error dev i) as [d|] eqn:Hd; [|discriminate].
    cbn [option_map] in Hy. injection Hy as <-. rewrite Hs.
    rewrite Forall_forall in Hdev, Hq0.
    destruct (mul_zero_finite d (Hdev d (nth_error_In _ _ Hd))) as [s Hz].
    apply (add_zero_eqb _ _ s Hz). apply Hq0.
    eapply nth_error_In; eassumption.
Qed.

Lemma coincide_sym (a b : vec) : coincide a b -> coincide b a.
Proof.
  intros H i x y Hx Hy. rewrite eqb_sym. eapply H; eassumption.
Qed.

Lemma coincide_refl (a : vec) :
  Forall (fun x => not_nan x = true) a -> coincide a a.
Proof.
  intros H i x y Hx Hy. rewrite Hx in Hy. injection Hy as <-.
  rewrite Forall_forall in H. apply (H x). eapply nth_error_In; eassumption.
Qed.

(** X14: a step without discrete variables whose scaling is zero is stuck:
    a call with a finite deviate of the length of a NaN-free state, if it
    returns, returns a state equal to the one it was called with in every
    coordinate, counts the call as an acceptance and leaves the scaling at
    zero. *)
Theorem zero_scaling_proposes_current_state (self : t) (c : call)
    (q_new : vec) (self' : t) :
  scaling self = 0%float -> any (discrete self) = false ->
  List.length (dev_of c) = List.length (q0_of c) ->
  Forall (fun d => is_finite d = true) (dev_of c) ->
  Forall (fun x => not_nan x = true) (q0_of c) ->
  step self c = (Ok q_new, self') ->
  coincide q_new (q0_of c) /\
  accepted self' = accepted (snd (tuning self)) + 1 /\
  scaling self' = 0%float.
Proof.
  intros Hs Hany Hlen Hdev Hq0. unfold step. rewrite astep_eq.
  pose proof (tuning_keeps_zero self Hs) as Hs1.
  pose proof (tuning_discrete self) as Hd1.
  destruct (tuning self) as [[[]|e] s1]; [|discriminate]. cbn [snd] in *.
  destruct (candidate s1 _ _) as [q|e] eqn:Hc; [|discriminate].
  rewrite <- Hd1 in Hany.
  destruct (frozen_candidate _ _ _ _ Hs1 Hany Hlen Hdev Hq0 Hc) as [Hl Hco].
  destruct (log_ratio _ q _) as [mr|e]; [|discriminate].
  destruct (counts_as_accepted _ _ q) as [hit|e] eqn:Hh; [|discriminate].
  intros [= <- <-].
  assert (Hnew : coincide (metrop_select (u_of c) mr q (q0_of c)) (q0_of c)).
  { destruct (metrop_select_either (u_of c) mr q (q0_of c)) as [-> | ->];
      [exact Hco | now apply coincide_refl]. }
  split; [exact Hnew|].
  assert (Hhit : hit = true).
  { apply (counts_as_accepted_same_shape _ _ _ hit) in Hh; auto.
    - apply Hh. right. now apply coincide_sym.
    - destruct (metrop_select_either (u_of c) mr q (q0_of c)) as [-> | ->];
        auto. }
  subst hit. split; fields; [lia | exact Hs1].
Qed.

Lemma zero_scaling_proposes_current_state_witness :
  scaling frozen_step = 0%float /\ any (discrete frozen_step) = false /\
  List.length (dev_of unit_call) = List.length (q0_of unit_call) /\
  Forall (fun d => is_finite d = true) (dev_of unit_call) /\
  Forall (fun x => not_nan x = true) (q0_of unit_call) /\
  step frozen_step unit_call
    = (Ok [0%float], snd (step frozen_step unit_call)) /\
  coincide [0%float] (q0_of unit_call) /\
  accepted (snd (step frozen_step unit_call))
    = accepted (snd (tuning frozen_step)) + 1 /\
  scaling (snd (step frozen_step unit_call)) = 0%float.
Proof.
  assert (H1 : scaling frozen_step = 0%float) by reflexivity.
  assert (H2 : any (discrete frozen_step) = false) by reflexivity.
  assert (H3 : List.length (dev_of unit_call)
               = List.length (q0_of unit_call)) by reflexivity.
  assert (H4 : Forall (fun d => is_finite d = true) (dev_of unit_call))
    by (repeat constructor).
  assert (H5 : Forall (fun x => not_nan x = true) (q0_of unit_call))
    by (repeat constructor).
  assert (H6 : step frozen_step unit_call
               = (Ok [0%float], snd (step frozen_step unit_call)))
    by (vm_compute; reflexivity).
  split; [exact H1|]. split; [exact H2|]. split; [exact H3|].
  split; [exact H4|]. split; [exact H5|]. split; [exact H6|].
  exact (zero_scaling_proposes_current_state frozen_step unit_call
           [0%float] _ H1 H2 H3 H4 H5 H6).
Defined.

End MetropolisMore.

(** ** More on the binary step *)

Module BinaryMore.

Import BinaryMetropolis BinaryProps.

Lemma one_minus_zero (x : float) :
  (x =? 0)%float = true -> (1 - x)%float = 1%float.
Proof.
  intros H. destruct (eqb_zero_Prim2SF x H) as [s Hs].
  apply Prim2SF_inj. rewrite sub_spec, Hs. reflexivity.
Qed.

Lemma flip_flip (x : float) :
  is_bit x = true -> (1 - (1 - x) =? x)%float = true.
Proof.
  unfold is_bit. intros [H|H]%orb_true_iff.
  - rewrite (one_minus_zero x H). change (1 - 1)%float with 0%float.
    now rewrite eqb_sym.
  - rewrite (eqb_one_eq x H). reflexivity.
Qed.

Lemma bit_eqb_refl (x : float) : is_bit x = true -> (x =? x)%float = true.
Proof.
  unfold is_bit. rewrite !eqb_spec.
  intros [H|H]%orb_true_iff; eapply SFeqb_refl_l; exact H.
Qed.

Lemma proposed_length (half_pow : float) (rand : nat -> float) (q0 : vec) :
  List.length (proposed half_pow rand q0) = List.length q0.
Proof.
  unfold proposed, candidate. apply zip_with_length.
  now rewrite length_map, length_seq.
Qed.

Lemma proposed_nth (half_pow : float) (rand : nat -> float) (q0 : vec)
    (i : nat) (x : float) :
  nth_error q0 i = Some x ->
  nth_error (proposed half_pow rand q0) i =
  Some (if (rand i <? 1 - half_pow)%float then (1 - x)%float else x).
Proof.
  intros Hx. unfold proposed, candidate.
  rewrite zip_with_nth_error, Hx.
  now rewrite nth_error_map_seq by (apply nth_error_Some; congruence).
Qed.

(** X15: the proposal is its own inverse: on a state of zeros and ones, the
    draws that produced the candidate produce, from the candidate, a state
    of the same length that equals the original state in every
    coordinate. *)
Theorem flipping_twice_restores (half_pow : float) (rand : nat -> float)
    (q0 : vec) :
  Forall (fun x => is_bit x = true) q0 ->
  List.length (proposed half_pow rand (proposed half_pow rand q0))
    = List.length q0 /\
  coincide (proposed half_pow rand (proposed half_pow rand q0)) q0.
Proof.
  intros Hbits. split; [now rewrite !proposed_length|].
  intros i y x Hy Hx.
  assert (Hb : is_bit x = true).
  { rewrite Forall_forall in Hbits. apply Hbits.
    eapply nth_error_In; eassumption. }
  rewrite (proposed_nth _ _ _ _ _ (proposed_nth _ _ _ _ _ Hx)) in Hy.
  injection Hy as <-.
  destruct (rand i <? 1 - half_pow)%float;
    [now apply flip_flip | now apply bit_eqb_refl].
Qed.

Lemma flipping_twice_restores_witness :
  Forall (fun x => is_bit x = true) [0%float; 1%float] /\
  List.length (proposed 0.5 low_then_high
                 (proposed 0.5 low_then_high [0%float; 1%float]))
    = List.length [0%float; 1%float] /\
  coincide (proposed 0.5 low_then_high
              (proposed 0.5 low_then_high [0%float; 1%float]))
           [0%float; 1%float].
Proof.
  assert (H : Forall (fun x => is_bit x = true) [0%float; 1%float])
    by (repeat constructor).
  split; [exact H|].
  exact (flipping_twice_restores 0.5 low_then_high [0%float; 1%float] H).
Defined.

Lemma proposed_no_flip (rand : nat -> float) (q0 : vec) :
  (forall i, (0 <=? rand i)%float = true) -> proposed 1 rand q0 = q0.
Proof.
  intros Hr. apply nth_error_ext. intros i.
  destruct (nth_error q0 i) as [x|] eqn:Hx.
  - rewrite (proposed_nth _ _ _ _ _ Hx).
    change (1 - 1)%float with 0%float.
    now rewrite (leb_zero_not_ltb _ (Hr i)).
  - apply nth_error_None. rewrite proposed_length.
    now apply nth_error_None.
Qed.

Lemma proposed_all_flip (rand : nat -> float) (q0 : vec) :
  (forall i, (rand i <? 1)%float = true) ->
  proposed 0 rand q0 = map (fun x => (1 - x)%float) q0.
Proof.
  intros Hr. apply nth_error_ext. intros i. rewrite nth_error_map.
  destruct (nth_error q0 i) as [x|] eqn:Hx; cbn [option_map].
  - rewrite (proposed_nth _ _ _ _ _ Hx).
    change (1 - 0)%float with 1%float. now rewrite (Hr i).
  - apply nth_error_None. rewrite proposed_length.
    now apply nth_error_None.
Qed.

(** X16: the two ends of the flip probability: when [.5 ** scaling] is 1
    (a scaling of zero) [p_jump] is 0 and draws that are not negative flip
    nothing, the candidate is the state itself; when [.5 ** scaling] is 0
    [p_jump] is 1 and draws below one flip every element. *)
Theorem flip_probability_extremes (rand : nat -> float) (q0 : vec) :
  ((forall i, (0 <=? rand i)%float = true) -> proposed 1 rand q0 = q0) /\
  ((forall i, (rand i <? 1)%float = true) ->
   proposed 0 rand q0 = map (fun x => (1 - x)%float) q0).
Proof.
  split; [apply proposed_no_flip | apply proposed_all_flip].
Qed.

Lemma flip_probability_extremes_witness :
  (forall i, (0 <=? all_half i)%float = true) /\
  proposed 1 all_half [0%float; 1%float] = [0%float; 1%float].
Proof.
  assert (H : forall i, (0 <=? all_half i)%float = true)
    by (intros i; reflexivity).
  split; [exact H|].
  exact (proj1 (flip_probability_extremes all_half [0%float; 1%float]) H).
Defined.

(** X17: a binary step whose scaling makes [.5 ** scaling] equal to 1, as
    a scaling of zero does, never moves: every call that returns, returns
    the state it was called with, for every log-probability. *)
Theorem zero_scaling_never_moves
    (py_pow : float -> float -> result float) (q0 : vec)
    (logp : vec -> result float) (rand : nat -> float) (u : float)
    (self : t) (q_new : vec) (self' : t) :
  py_pow 0.5%float (scaling self) = Ok 1%float ->
  (forall i, (0 <=? rand i)%float = true) ->
  astep py_pow q0 logp rand u self = (Ok q_new, self') ->
  q_new = q0.
Proof.
  intros Hpow Hr. rewrite binary_astep_eq, Hpow.
  rewrite (proposed_no_flip rand q0 Hr).
  destruct (log_ratio logp q0 q0) as [mr|e]; [|discriminate].
  intros [= <- _].
  destruct (metrop_select_either u mr q0 q0); assumption.
Qed.

Lemma zero_scaling_never_moves_witness :
  pow_table 0.5%float (scaling still_binary_step) = Ok 1%float /\
  (forall i, (0 <=? all_half i)%float = true) /\
  astep pow_table [0%float; 1%float] flat_logp all_half 0.5%float
        still_binary_step
    = (Ok [0%float; 1%float], still_binary_step) /\
  [0%float; 1%float] = [0%float; 1%float].
Proof.
  assert (H1 : pow_table 0.5%float (scaling still_binary_step) = Ok 1%float)
    by reflexivity.
  assert (H2 : forall i, (0 <=? all_half i)%float = true)
    by (intros i; reflexivity).
  assert (H3 : astep pow_table [0%float; 1%float] flat_logp all_half
                 0.5%float still_binary_step
               = (Ok [0%float; 1%float], still_binary_step))
    by (vm_compute; reflexivity).
  split; [exact H1|]. split; [exact H2|]. split; [exact H3|].
  exact (zero_scaling_never_moves pow_table [0%float; 1%float] flat_logp
           all_half 0.5%float still_binary_step [0%float; 1%float]
           still_binary_step H1 H2 H3).
Defined.

End BinaryMore.
